(** * Gaea control centre (gaea-cc): the administrative HTTP handlers

    A shallow embedding of [cmd/gaea-cc/server.go].  The five handlers of
    the [/api/cc] group are embedded as programs of a small state monad
    over a [World]: the state kept behind the [service] package and the
    trace of what a handler did (warnings logged, requests aborted,
    services called, JSON bodies written).

    The [service] package, the [models] package and the SQL fingerprint
    function are not part of the embedded file.  The handlers take the
    services as a record of operations; the components the specification
    describes behind them (namespace store, SQL statistics, fleet
    registry and verifier) are modelled in the modules [NamespaceStore],
    [SQLStatsAggregator], [FleetRegistry], [ConfigFingerprintVerifier]
    and [Core]. *)

From Stdlib Require Import ZArith Ascii String.
From stdpp Require Import gmap strings list fin_maps.

Local Open Scope string_scope.
Local Open Scope list_scope.

(** ** Go strings

    A Go string is a sequence of bytes; [string] is a list of [ascii]
    bytes.  [ε] is the empty string. *)

Abbreviation ε := EmptyString.

Definition byte (n : nat) : ascii := ascii_of_nat n.

Fixpoint bytes (l : list nat) : string :=
  match l with
  | [] => ε
  | n :: l => String (byte n) (bytes l)
  end.

Fixpoint revString (acc s : string) : string :=
  match s with
  | ε => acc
  | String a r => revString (String a acc) r
  end.

(** *** [strings.TrimSpace]

    [TrimSpace] removes leading and trailing white space, as defined by
    Unicode.  [unicode.IsSpace] holds of U+0009..U+000D, U+0020, U+0085,
    U+00A0, U+1680, U+2000..U+200A, U+2028, U+2029, U+202F, U+205F and
    U+3000.  On the UTF-8 bytes of a string these are one byte (ASCII),
    two bytes (C2 85, C2 A0) or three bytes (E1 9A 80, E2 80 80..8A,
    E2 80 A8, E2 80 A9, E2 80 AF, E2 81 9F, E3 80 80).  A byte sequence
    that is not the shortest encoding of one of them decodes to another
    rune or to [RuneError], which is not a space. *)

Definition isByte (a : ascii) (n : nat) : bool := (nat_of_ascii a =? n)%nat.

Definition inRange (a : ascii) (lo hi : nat) : bool :=
  ((lo <=? nat_of_ascii a) && (nat_of_ascii a <=? hi))%nat.

Definition asciiSpace (a : ascii) : bool :=
  inRange a 9%nat 13%nat || isByte a 32%nat.

Definition space2 (a b : ascii) : bool :=
  isByte a 194%nat && (isByte b 133%nat || isByte b 160%nat).

Definition space3 (a b c : ascii) : bool :=
  isByte a 225%nat && isByte b 154%nat && isByte c 128%nat
  || isByte a 226%nat && isByte b 128%nat
       && (inRange c 128%nat 138%nat || isByte c 168%nat
           || isByte c 169%nat || isByte c 175%nat)
  || isByte a 226%nat && isByte b 129%nat && isByte c 159%nat
  || isByte a 227%nat && isByte b 128%nat && isByte c 128%nat.

(** [TrimLeftFunc s unicode.IsSpace]: drop encoded spaces from the front. *)
Fixpoint TrimLeftSpace (s : string) : string :=
  match s with
  | ε => ε
  | String a r1 =>
      if asciiSpace a then TrimLeftSpace r1
      else match r1 with
           | ε => s
           | String b r2 =>
               if space2 a b then TrimLeftSpace r2
               else match r2 with
                    | ε => s
                    | String c r3 =>
                        if space3 a b c then TrimLeftSpace r3 else s
                    end
           end
  end.

(** The same scan on the reversed string: the bytes of an encoded space
    are met last byte first. *)
Fixpoint trimLeftSpaceRev (s : string) : string :=
  match s with
  | ε => ε
  | String a r1 =>
      if asciiSpace a then trimLeftSpaceRev r1
      else match r1 with
           | ε => s
           | String b r2 =>
               if space2 b a then trimLeftSpaceRev r2
               else match r2 with
                    | ε => s
                    | String c r3 =>
                        if space3 c b a then trimLeftSpaceRev r3 else s
                    end
           end
  end.

Definition TrimRightSpace (s : string) : string :=
  revString ε (trimLeftSpaceRev (revString ε s)).

Definition TrimSpace (s : string) : string :=
  TrimRightSpace (TrimLeftSpace s).

(** ** Go errors

    An [error] is a value with an [Error() string] method.  The errors a
    handler can meet are the one [encoding/json] returns for a nil
    target, any other error known by its message only, and the four
    kinds of the specification's taxonomy. *)

Inductive error : Type :=
| InvalidUnmarshalError (typ : string)
| errorString (msg : string)
| ValidationError (msg : string)
| NotFoundError (msg : string)
| ConflictError (msg : string)
| UnreachableError (msg : string).

Definition Error (e : error) : string :=
  match e with
  | InvalidUnmarshalError typ => "json: Unmarshal(nil " +:+ typ +:+ ")"
  | errorString msg
  | ValidationError msg
  | NotFoundError msg
  | ConflictError msg
  | UnreachableError msg => msg
  end.

(** ** Response and request types of [server.go] *)

(** [RetHeader]: response header. *)
Record RetHeader : Type := { RetCode : Z; RetMessage : string }.

(** Assignments [h.RetCode = ...] and [h.RetMessage = ...]. *)
Definition setRetCode (code : Z) (h : RetHeader) : RetHeader :=
  {| RetCode := code; RetMessage := RetMessage h |}.

Definition setRetMessage (msg : string) (h : RetHeader) : RetHeader :=
  {| RetCode := RetCode h; RetMessage := msg |}.

(** [QueryReq]: query namespace request. *)
Record QueryReq : Type := { Names : list string }.

(** [QueryNamespaceResp]: query namespace response.  A nil slice and an
    empty slice are both the empty list. *)
Module QueryNamespaceResp.
Record t (Namespace : Type) : Type :=
  { RetHeader : RetHeader; Data : list Namespace }.
Arguments RetHeader {Namespace} _.
Arguments Data {Namespace} _.
End QueryNamespaceResp.

(** A nil map and an empty map are both the empty [gmap]. *)
Module sqlFingerprintResp.
Record t : Type :=
  { RetHeader : RetHeader;
    ErrSQLs : gmap string string;
    SlowSQLs : gmap string string }.
End sqlFingerprintResp.

(** [Data]: key: ip:port, value: md5 of config. *)
Module proxyConfigFingerprintResp.
Record t : Type :=
  { RetHeader : RetHeader; Data : gmap string string }.
End proxyConfigFingerprintResp.

(** ** [encoding/json]

    What decoding needs to know of a Go type [T]: its name as [%T] prints
    the pointer type, the scan of the input up to the end of one JSON
    value ([readValue], [None] when a complete value was read), and
    [unmarshal], which stores the value read in a [T]. *)
Module json.
Record Codec (T : Type) : Type :=
  { typeString : string;
    readValue : string -> option error;
    unmarshal : string -> T -> option error * T }.
Arguments typeString {T} _.
Arguments readValue {T} _ _.
Arguments unmarshal {T} _ _ _.

(** [Decoder.Decode(v)] for [v : *T]: the next JSON value is read from
    the input first; then a nil [v] is refused with
    [InvalidUnmarshalError], whatever was read.  The result is the
    error and what [v] points to afterwards. *)
Definition Decode {T : Type} (J : Codec T) (data : string) (v : option T)
  : option error * option T :=
  match readValue J data with
  | Some e => (Some e, v)
  | None =>
      match v with
      | None => (Some (InvalidUnmarshalError (typeString J)), None)
      | Some x => let '(e, x') := unmarshal J data x in (e, Some x')
      end
  end.
End json.

(** ** The handlers *)

Definition StatusOK : Z := 200.
Definition StatusBadRequest : Z := 400.

Section Server.
(** [S]: the state behind the [service] package (the coordinator's
    store and the proxy fleet); [CCConfig] and [Namespace]: the types
    [models.CCConfig] and [models.Namespace]. *)
Context {S CCConfig Namespace : Type}.

(** The [service] package: each function reads and updates [S] and
    returns its results, [None] for a nil error.  [ModifyNamespace]
    takes the pointer it is given, nil ([None]) included. *)
Record Service : Type :=
  { QueryNamespace :
      list string -> CCConfig -> S -> (list Namespace * option error) * S;
    ModifyNamespace :
      option Namespace -> CCConfig -> S -> option error * S;
    DelNamespace :
      string -> CCConfig -> S -> option error * S;
    SQLFingerprint :
      string -> CCConfig -> S
      -> (gmap string string * gmap string string * option error) * S;
    ProxyConfigFingerprint :
      CCConfig -> S -> (gmap string string * option error) * S }.

(** The value given to [c.JSON]. *)
Inductive JSONBody : Type :=
| BodyRetHeader (h : RetHeader)
| BodyQueryNamespaceResp (r : QueryNamespaceResp.t Namespace)
| BodySqlFingerprintResp (r : sqlFingerprintResp.t)
| BodyProxyConfigFingerprintResp (r : proxyConfigFingerprintResp.t).

Definition ret_header (b : JSONBody) : RetHeader :=
  match b with
  | BodyRetHeader h => h
  | BodyQueryNamespaceResp r => QueryNamespaceResp.RetHeader r
  | BodySqlFingerprintResp r => sqlFingerprintResp.RetHeader r
  | BodyProxyConfigFingerprintResp r => proxyConfigFingerprintResp.RetHeader r
  end.

(** A call into the [service] package, with its arguments. *)
Inductive Op : Type :=
| OpQueryNamespace (names : list string)
| OpModifyNamespace (namespace : option Namespace)
| OpDelNamespace (name : string)
| OpSQLFingerprint (name : string)
| OpProxyConfigFingerprint.

(** What a handler does besides computing, in the order it does it. *)
Inductive Event : Type :=
| LogWarn (format : string) (e : error)
| AbortWithError (code : Z) (e : error)
| ServiceCall (op : Op)
| WriteJSON (code : Z) (obj : JSONBody).

Record World : Type := { store : S; trace : list Event }.

(** A handler either returns or panics (nil dereference). *)
Inductive Outcome (A : Type) : Type :=
| Returned (a : A) (w : World)
| Panicked (w : World).
Arguments Returned {A} _ _.
Arguments Panicked {A} _.

Definition M (A : Type) : Type := World -> Outcome A.

#[local] Instance M_ret : MRet M := fun A a w => Returned a w.

#[local] Instance M_bind : MBind M := fun A B k m w =>
  match m w with
  | Returned a w' => k a w'
  | Panicked w' => Panicked w'
  end.

Definition emit (ev : Event) : M unit := fun w =>
  Returned tt {| store := store w; trace := trace w ++ [ev] |}.

(** Dereference of a pointer: [p.f] panics when [p] is nil. *)
Definition deref {T : Type} (p : option T) : M T := fun w =>
  match p with
  | Some x => Returned x w
  | None => Panicked w
  end.

(** A call [service.F(args)]: recorded, then run on the store. *)
Definition invoke {A : Type} (op : Op) (f : S -> A * S) : M A := fun w =>
  let '(a, st) := f (store w) in
  Returned a {| store := st; trace := trace w ++ [ServiceCall op] |}.

(** *** gin and log *)

(** [gin.Context], as far as the handlers read it: the path
    parameters and the request body. *)
Record Context : Type :=
  { Params : list (string * string); Body : string }.

(** [c.Param(key)]: the value of the first parameter of that name,
    the empty string when there is none. *)
Fixpoint ByName (ps : list (string * string)) (key : string) : string :=
  match ps with
  | [] => ε
  | (k, v) :: ps => if String.eqb k key then v else ByName ps key
  end.

Definition gin_Param (c : Context) (key : string) : string :=
  ByName (Params c) key.

(** [c.BindJSON(obj)] is [c.MustBindWith(obj, binding.JSON)]: the body
    is decoded into [obj], and on an error the request is aborted with
    status 400 and the error is returned. *)
Definition gin_BindJSON {T : Type} (J : json.Codec T) (c : Context)
    (obj : option T) : M (option error * option T) :=
  let '(err, obj') := json.Decode J (Body c) obj in
  match err with
  | Some e => emit (AbortWithError StatusBadRequest e);; mret (err, obj')
  | None => mret (err, obj')
  end.

Definition gin_JSON (code : Z) (obj : JSONBody) : M unit :=
  emit (WriteJSON code obj).

Definition log_Warn (format : string) (e : error) : M unit :=
  emit (LogWarn format e).

(** *** [server] *)

Variable svc : Service.
Variable QueryReqJSON : json.Codec QueryReq.
Variable NamespaceJSON : json.Codec Namespace.

Record server : Type := { cfg : CCConfig }.

(** [r.RetHeader] is the pointer [h]: the body written is built from
    what [h] holds when [c.JSON] is called. *)
Definition queryNamespace (s : server) (c : Context) : M unit :=
  let req : option QueryReq := None in
  let h := {| RetCode := -1; RetMessage := ε |} in
  '(err, req) ← gin_BindJSON QueryReqJSON c req;
  match err with
  | Some e =>
      log_Warn "queryNamespace got invalid data, err: %v" e;;
      let h := setRetMessage (Error e) h in
      gin_JSON StatusOK
        (BodyQueryNamespaceResp
           {| QueryNamespaceResp.RetHeader := h;
              QueryNamespaceResp.Data := [] |})
  | None =>
      req ← deref req;
      '(data, err) ←
        invoke (OpQueryNamespace (Names req))
               (QueryNamespace svc (Names req) (cfg s));
      match err with
      | Some e =>
          log_Warn "query namespace failed, %v" e;;
          gin_JSON StatusOK
            (BodyQueryNamespaceResp
               {| QueryNamespaceResp.RetHeader := h;
                  QueryNamespaceResp.Data := data |})
      | None =>
          let h := setRetCode 0 h in
          let h := setRetMessage "SUCC" h in
          gin_JSON StatusOK
            (BodyQueryNamespaceResp
               {| QueryNamespaceResp.RetHeader := h;
                  QueryNamespaceResp.Data := data |})
      end
  end.

Definition modifyNamespace (s : server) (c : Context) : M unit :=
  let namespace : option Namespace := None in
  let h := {| RetCode := -1; RetMessage := ε |} in
  '(err, namespace) ← gin_BindJSON NamespaceJSON c namespace;
  match err with
  | Some e =>
      log_Warn "modifyNamespace failed, err: %v" e;;
      gin_JSON StatusOK (BodyRetHeader h)
  | None =>
      err ← invoke (OpModifyNamespace namespace)
                   (ModifyNamespace svc namespace (cfg s));
      match err with
      | Some e =>
          log_Warn "modifyNamespace failed, err: %v" e;;
          gin_JSON StatusOK (BodyRetHeader h)
      | None =>
          let h := setRetCode 0 h in
          let h := setRetMessage "SUCC" h in
          gin_JSON StatusOK (BodyRetHeader h)
      end
  end.

Definition delNamespace (s : server) (c : Context) : M unit :=
  let h := {| RetCode := -1; RetMessage := ε |} in
  let name := TrimSpace (gin_Param c "name") in
  if String.eqb name ε then
    let h := setRetMessage "input name is empty" h in
    gin_JSON StatusOK (BodyRetHeader h)
  else
    err ← invoke (OpDelNamespace name) (DelNamespace svc name (cfg s));
    match err with
    | Some e =>
        let h := setRetMessage ("delete namespace faild, " +:+ Error e) h in
        gin_JSON StatusOK (BodyRetHeader h)
    | None =>
        let h := setRetCode 0 h in
        let h := setRetMessage "SUCC" h in
        gin_JSON StatusOK (BodyRetHeader h)
    end.

Definition sqlFingerprint (s : server) (c : Context) : M unit :=
  let h := {| RetCode := -1; RetMessage := ε |} in
  let name := TrimSpace (gin_Param c "name") in
  if String.eqb name ε then
    let h := setRetMessage "input name is empty" h in
    gin_JSON StatusOK
      (BodySqlFingerprintResp
         {| sqlFingerprintResp.RetHeader := h;
            sqlFingerprintResp.ErrSQLs := ∅;
            sqlFingerprintResp.SlowSQLs := ∅ |})
  else
    '(slow, errs, err) ←
      invoke (OpSQLFingerprint name) (SQLFingerprint svc name (cfg s));
    match err with
    | Some e =>
        let h := setRetMessage (Error e) h in
        gin_JSON StatusOK
          (BodySqlFingerprintResp
             {| sqlFingerprintResp.RetHeader := h;
                sqlFingerprintResp.ErrSQLs := errs;
                sqlFingerprintResp.SlowSQLs := slow |})
    | None =>
        let h := setRetCode 0 h in
        let h := setRetMessage "SUCC" h in
        gin_JSON StatusOK
          (BodySqlFingerprintResp
             {| sqlFingerprintResp.RetHeader := h;
                sqlFingerprintResp.ErrSQLs := errs;
                sqlFingerprintResp.SlowSQLs := slow |})
    end.

Definition proxyConfigFingerprint (s : server) (c : Context) : M unit :=
  let h := {| RetCode := -1; RetMessage := ε |} in
  '(data, err) ←
    invoke OpProxyConfigFingerprint (ProxyConfigFingerprint svc (cfg s));
  match err with
  | Some e =>
      let h := setRetMessage (Error e) h in
      gin_JSON StatusOK
        (BodyProxyConfigFingerprintResp
           {| proxyConfigFingerprintResp.RetHeader := h;
              proxyConfigFingerprintResp.Data := data |})
  | None =>
      let h := setRetCode 0 h in
      let h := setRetMessage "SUCC" h in
      gin_JSON StatusOK
        (BodyProxyConfigFingerprintResp
           {| proxyConfigFingerprintResp.RetHeader := h;
              proxyConfigFingerprintResp.Data := data |})
  end.

(** [registerURL]: the routes of the [/api/cc] group. *)
Inductive Method : Type := GET | PUT.

Inductive Handler : Type :=
| HQueryNamespace
| HModifyNamespace
| HDelNamespace
| HSqlFingerprint
| HProxyConfigFingerprint.

Definition registerURL : list (Method * string * Handler) :=
  [ (GET, "/namespace", HQueryNamespace);
    (PUT, "/namespace/modify", HModifyNamespace);
    (PUT, "/namespace/delete/:name", HDelNamespace);
    (GET, "/namespace/sqlfingerprint/:name", HSqlFingerprint);
    (GET, "/proxy/config/fingerprint", HProxyConfigFingerprint) ].

Definition handle (hd : Handler) : server -> Context -> M unit :=
  match hd with
  | HQueryNamespace => queryNamespace
  | HModifyNamespace => modifyNamespace
  | HDelNamespace => delNamespace
  | HSqlFingerprint => sqlFingerprint
  | HProxyConfigFingerprint => proxyConfigFingerprint
  end.

(** The bodies written by [c.JSON], oldest first, and the service
    calls made. *)
Definition written (w : World) : list (Z * JSONBody) :=
  omap (fun ev => match ev with
                  | WriteJSON code obj => Some (code, obj)
                  | _ => None
                  end) (trace w).

Definition calls (w : World) : list Op :=
  omap (fun ev => match ev with
                  | ServiceCall op => Some op
                  | _ => None
                  end) (trace w).
End Server.

Arguments Service : clear implicits.
Arguments World : clear implicits.
Arguments Event : clear implicits.
Arguments JSONBody : clear implicits.
Arguments Op : clear implicits.
Arguments Outcome : clear implicits.
Arguments server : clear implicits.
Arguments Returned {S Namespace A} _ _.
Arguments Panicked {S Namespace A} _.

(** ** The components behind the handlers

    The [models] and [service] packages are not part of the embedded
    file.  The modules below follow the specification's description of
    them. *)

(** Modelled from the spec: the types of the [models] package (section 3,
    DATA MODEL).  [CCConfig] has the two fields [registerURL] reads. *)
Module models.
Record CCConfig : Type :=
  { AdminUserName : string; AdminPassword : string }.

(** A routing rule names the backend group it sends a table to. *)
Record Rule : Type := { table : string; group : string }.

Record Namespace : Type :=
  { name : string;
    backends : list string;
    rules : list Rule;
    users : list (string * string);
    slowThreshold : nat }.

(** Keyed by (namespace, fingerprint); the class is the map it is in. *)
Record SQLFingerprintEntry : Type :=
  { fingerprint : string; sample : string; count : nat }.

(** Identified by its address; [unreachable] is set when a poll fails. *)
Record ProxyNode : Type :=
  { lastFingerprint : option string;
    lastObserved : option nat;
    unreachable : bool }.
End models.

(** Modelled from the spec: the NamespaceStore of section 4.1, which is
    what [service.QueryNamespace], [service.ModifyNamespace] and
    [service.DelNamespace] delegate to. *)
Module NamespaceStore.
Import models.

(** One record per namespace keyed by name; one record set per
    (namespace, class) pair for the SQL fingerprint entries. *)
Record t : Type :=
  { namespaces : gmap string Namespace;
    slow : gmap string (gmap string SQLFingerprintEntry);
    errs : gmap string (gmap string SQLFingerprintEntry) }.

Definition declared (ns : Namespace) (r : Rule) : bool :=
  bool_decide (group r ∈ backends ns).

(** The name is not empty, the rule set references at least one valid
    backend group, and no rule references a missing one. *)
Definition valid (ns : Namespace) : bool :=
  negb (String.eqb (name ns) ε)
  && existsb (declared ns) (rules ns)
  && forallb (declared ns) (rules ns).

Definition notFound (n : string) : error :=
  NotFoundError ("namespace " +:+ n +:+ " not found").

(** Modelled from the spec: [upsert] of the NamespaceStore (section 4.1),
    behind [service.ModifyNamespace].  It validates the full object, then
    replaces or creates it. *)
Definition upsert (ns : Namespace) (st : t) : option error * t :=
  if valid ns then
    (None, {| namespaces := <[name ns := ns]> (namespaces st);
              slow := slow st; errs := errs st |})
  else (Some (ValidationError "invalid namespace"), st).

(** Modelled from the spec: [delete] of the NamespaceStore (section 4.1),
    behind [service.DelNamespace].  It fails with [NotFoundError] when
    there is no such namespace; otherwise it removes it and, in cascade,
    its SQL fingerprint entries. *)
Definition delete (n : string) (st : t) : option error * t :=
  match namespaces st !! n with
  | None => (Some (notFound n), st)
  | Some _ =>
      (None, {| namespaces := base.delete n (namespaces st);
                slow := base.delete n (slow st);
                errs := base.delete n (errs st) |})
  end.

(** Modelled from the spec: [list] of the NamespaceStore (section 4.1),
    behind [service.QueryNamespace].  It returns the namespaces of the
    given names, all of them when no name is given; unknown names are
    omitted. *)
Definition list (names : list string) (st : t) : list Namespace :=
  match names with
  | [] => snd <$> map_to_list (namespaces st)
  | _ => omap (fun n => namespaces st !! n) (remove_dups names)
  end.
End NamespaceStore.

(** Modelled from the spec: the query of the SQLStatsAggregator of
    section 4.3, which is what [service.SQLFingerprint] delegates to. *)
Module SQLStatsAggregator.
Import models.

Definition samples (m : option (gmap string SQLFingerprintEntry))
  : gmap string string :=
  sample <$> default ∅ m.

(** Modelled from the spec: [query] of the SQLStatsAggregator (section
    4.3), behind [service.SQLFingerprint]: the (slow map, error map) of
    fingerprint to sample, [NotFoundError] for an unknown namespace. *)
Definition query (n : string) (st : NamespaceStore.t)
  : error + gmap string string * gmap string string :=
  match NamespaceStore.namespaces st !! n with
  | None => inl (NamespaceStore.notFound n)
  | Some _ =>
      inr (samples (NamespaceStore.slow st !! n),
           samples (NamespaceStore.errs st !! n))
  end.
End SQLStatsAggregator.

(** Modelled from the spec: the FleetRegistry of section 4.4.  The
    network is a function from an address to the fingerprint its node
    answers with before the timeout, [None] when it does not. *)
Module FleetRegistry.
Import models.

Record t : Type := { nodes : gmap string ProxyNode }.

Definition register (addr : string) (reg : t) : t :=
  match nodes reg !! addr with
  | Some _ => reg
  | None =>
      {| nodes := <[addr := {| lastFingerprint := None;
                               lastObserved := None;
                               unreachable := false |}]> (nodes reg) |}
  end.

Definition markUnreachable (nd : ProxyNode) : ProxyNode :=
  {| lastFingerprint := lastFingerprint nd;
     lastObserved := lastObserved nd;
     unreachable := true |}.

(** Modelled from the spec: [poll] of the FleetRegistry (section 4.4).
    Success updates the node's fingerprint and timestamp; on failure the
    node is kept and marked unreachable. *)
Definition poll (net : string -> option string) (now : nat)
    (addr : string) (reg : t) : (error + string) * t :=
  match net addr with
  | Some fp =>
      (inr fp,
       {| nodes := <[addr := {| lastFingerprint := Some fp;
                                lastObserved := Some now;
                                unreachable := false |}]> (nodes reg) |})
  | None =>
      (inl (UnreachableError ("proxy " +:+ addr +:+ " unreachable")),
       {| nodes := alter markUnreachable addr (nodes reg) |})
  end.
End FleetRegistry.

(** Modelled from the spec: the ConfigFingerprintVerifier of section 4.5,
    which is what [service.ProxyConfigFingerprint] delegates to.  The
    polls of one pass do not depend on each other, so the fan-out is a
    fold over the known addresses. *)
Module ConfigFingerprintVerifier.
(** The result for one node: a tagged variant, no sentinel value. *)
Inductive PollResult : Type :=
| Fingerprint (value : string)
| Unreachable.

Definition tag (r : error + string) : PollResult :=
  match r with
  | inr fp => Fingerprint fp
  | inl _ => Unreachable
  end.

Definition pollAll (net : string -> option string) (now : nat)
    (addrs : list string) (reg : FleetRegistry.t)
  : gmap string PollResult * FleetRegistry.t :=
  foldr (fun addr acc =>
           let '(r, reg') := FleetRegistry.poll net now addr (snd acc) in
           (<[addr := tag r]> (fst acc), reg'))
        (∅, reg) addrs.

(** Modelled from the spec: [verify] of the ConfigFingerprintVerifier
    (section 4.5), behind [service.ProxyConfigFingerprint].  Every known
    node is polled; one that does not answer is reported unreachable, not
    omitted, and the pass itself does not fail. *)
Definition verify (net : string -> option string) (now : nat)
    (reg : FleetRegistry.t) : gmap string PollResult * FleetRegistry.t :=
  pollAll net now (elements (dom (FleetRegistry.nodes reg))) reg.

(** What one pass reports of a node on a given network. *)
Definition reported (net : string -> option string) (addr : string)
  : PollResult :=
  match net addr with
  | Some fp => Fingerprint fp
  | None => Unreachable
  end.

(** The value of a node in a [map[string]string]. *)
Definition render (marker : string) (r : PollResult) : string :=
  match r with
  | Fingerprint v => v
  | Unreachable => marker
  end.
End ConfigFingerprintVerifier.

(** Modelled from the spec: the [service] package as the operation
    surface of section 6 over the components above.  A nil namespace is
    an incomplete object; an unreachable node is written as [marker]. *)
Module Core.
Record State : Type :=
  { ns : NamespaceStore.t;
    fleet : FleetRegistry.t;
    net : string -> option string;
    now : nat }.

Definition withStore (st : State) (s : NamespaceStore.t) : State :=
  {| ns := s; fleet := fleet st; net := net st; now := now st |}.

Definition withFleet (st : State) (f : FleetRegistry.t) : State :=
  {| ns := ns st; fleet := f; net := net st; now := now st |}.

(** Modelled from the spec: [service.QueryNamespace], the store's [list]
    (QueryNamespaces of section 6). *)
Definition QueryNamespace (names : list string) (_ : models.CCConfig)
    (st : State) : (list models.Namespace * option error) * State :=
  ((NamespaceStore.list names (ns st), None), st).

(** Modelled from the spec: [service.ModifyNamespace], the store's
    [upsert] (ModifyNamespace of section 6). *)
Definition ModifyNamespace (namespace : option models.Namespace)
    (_ : models.CCConfig) (st : State) : option error * State :=
  match namespace with
  | None => (Some (ValidationError "namespace is nil"), st)
  | Some n =>
      let '(err, s) := NamespaceStore.upsert n (ns st) in
      (err, withStore st s)
  end.

(** Modelled from the spec: [service.DelNamespace], the store's [delete]
    (DeleteNamespace of section 6). *)
Definition DelNamespace (n : string) (_ : models.CCConfig) (st : State)
  : option error * State :=
  let '(err, s) := NamespaceStore.delete n (ns st) in
  (err, withStore st s).

(** Modelled from the spec: [service.SQLFingerprint], the aggregator's
    [query] (QuerySQLFingerprints of section 6). *)
Definition SQLFingerprint (n : string) (_ : models.CCConfig) (st : State)
  : (gmap string string * gmap string string * option error) * State :=
  match SQLStatsAggregator.query n (ns st) with
  | inl e => ((∅, ∅, Some e), st)
  | inr (slowSQLs, errSQLs) => ((slowSQLs, errSQLs, None), st)
  end.

(** Modelled from the spec: [service.ProxyConfigFingerprint], the
    verifier's [verify] (QueryFleetFingerprints of section 6); it returns
    no error. *)
Definition ProxyConfigFingerprint (marker : string) (_ : models.CCConfig)
    (st : State) : (gmap string string * option error) * State :=
  let '(res, f) :=
    ConfigFingerprintVerifier.verify (net st) (now st) (fleet st) in
  ((ConfigFingerprintVerifier.render marker <$> res, None), withFleet st f).

Definition svc (marker : string)
  : Service State models.CCConfig models.Namespace :=
  @Build_Service State models.CCConfig models.Namespace
    QueryNamespace ModifyNamespace DelNamespace SQLFingerprint
    (ProxyConfigFingerprint marker).
End Core.

(** ** Vocabulary of the statements *)

Section Steps.
Context {S CCConfig Namespace : Type}.
Variable svc : Service S CCConfig Namespace.
Variable QueryReqJSON : json.Codec QueryReq.
Variable NamespaceJSON : json.Codec Namespace.

(** The world after a handler ran: the store it left and the events
    it added. *)
Definition extend (w : World S Namespace) (st : S)
    (evs : list (Event Namespace)) : World S Namespace :=
  {| store := st; trace := trace w ++ evs |}.

(** The error [Decode] gives for a nil target. *)
Definition nilError {T : Type} (J : json.Codec T) (c : Context) : error :=
  match json.readValue J (Body c) with
  | Some e => e
  | None => InvalidUnmarshalError (json.typeString J)
  end.

(** The name [delNamespace] and [sqlFingerprint] work on. *)
Definition nameOf (c : Context) : string :=
  TrimSpace (gin_Param c "name").

(** The steps of a handler: validation of the input, binding of the
    request, the delegated service call. *)
Definition validationFails (hd : Handler) (c : Context) : bool :=
  match hd with
  | HDelNamespace | HSqlFingerprint => String.eqb (nameOf c) ε
  | _ => false
  end.

Definition bindingError (hd : Handler) (c : Context) : option error :=
  match hd with
  | HQueryNamespace => fst (json.Decode QueryReqJSON (Body c) None)
  | HModifyNamespace => fst (json.Decode NamespaceJSON (Body c) None)
  | _ => None
  end.

(** The error the service returns on what the earlier steps left. *)
Definition serviceError (hd : Handler) (s : server CCConfig) (c : Context)
    (st : S) : option error :=
  match hd with
  | HQueryNamespace =>
      match snd (json.Decode QueryReqJSON (Body c) None) with
      | Some req => snd (fst (QueryNamespace svc (Names req) (cfg s) st))
      | None => None
      end
  | HModifyNamespace =>
      fst (ModifyNamespace svc
             (snd (json.Decode NamespaceJSON (Body c) None)) (cfg s) st)
  | HDelNamespace => fst (DelNamespace svc (nameOf c) (cfg s) st)
  | HSqlFingerprint => snd (fst (SQLFingerprint svc (nameOf c) (cfg s) st))
  | HProxyConfigFingerprint =>
      snd (fst (ProxyConfigFingerprint svc (cfg s) st))
  end.

Inductive Failure : Type :=
| InvalidInput
| BindFailed (e : error)
| ServiceFailed (e : error).

(** The first step that fails, [None] when all of them succeed. *)
Definition firstFailure (hd : Handler) (s : server CCConfig) (c : Context)
    (st : S) : option Failure :=
  if validationFails hd c then Some InvalidInput
  else match bindingError hd c with
       | Some e => Some (BindFailed e)
       | None =>
           match serviceError hd s c st with
           | Some e => Some (ServiceFailed e)
           | None => None
           end
       end.

(** What a handler puts before the message of a service error. *)
Definition errorPrefix (hd : Handler) : string :=
  match hd with
  | HDelNamespace => "delete namespace faild, "
  | _ => ε
  end.
End Steps.

(** ** Inputs of the examples *)

(** A decoder that takes every non-empty body for one JSON value and
    stores nothing of it. *)
Definition lenientJSON (T : Type) (typ : string) : json.Codec T :=
  {| json.typeString := typ;
     json.readValue := fun data =>
       if String.eqb data ε then Some (errorString "EOF") else None;
     json.unmarshal := fun _ v => (None, v) |}.

Definition dq : string := bytes [34%nat].

(** The body [{"names":["shop"]}]. *)
Definition namesBody : string :=
  "{" +:+ dq +:+ "names" +:+ dq +:+ ":[" +:+ dq +:+ "shop" +:+ dq +:+ "]}".

(** The body [{"name":"shop"}]. *)
Definition shopBody : string :=
  "{" +:+ dq +:+ "name" +:+ dq +:+ ":" +:+ dq +:+ "shop" +:+ dq +:+ "}".

Definition shop : models.Namespace :=
  {| models.name := "shop";
     models.backends := ["group1"];
     models.rules := [ {| models.table := "orders"; models.group := "group1" |} ];
     models.users := [("app", "secret")];
     models.slowThreshold := 1000 |}.

Definition emptyStore : NamespaceStore.t :=
  {| NamespaceStore.namespaces := ∅;
     NamespaceStore.slow := ∅;
     NamespaceStore.errs := ∅ |}.

(** Two registered nodes; A answers [abc123], B times out. *)
Definition nodeA : string := "10.0.0.1:13307".
Definition nodeB : string := "10.0.0.2:13307".

Definition twoNodes : FleetRegistry.t :=
  FleetRegistry.register nodeB
    (FleetRegistry.register nodeA {| FleetRegistry.nodes := ∅ |}).

Definition onlyA (addr : string) : option string :=
  if String.eqb addr nodeA then Some "abc123" else None.

Definition state0 : Core.State :=
  {| Core.ns := emptyStore; Core.fleet := twoNodes;
     Core.net := onlyA; Core.now := 0 |}.

Definition world0 : World Core.State models.Namespace :=
  {| store := state0; trace := [] |}.

Definition server0 : server models.CCConfig :=
  {| cfg := {| models.AdminUserName := "admin";
               models.AdminPassword := "admin" |} |}.

Definition request (name body : string) : Context :=
  {| Params := [("name", name)]; Body := body |}.

(** A service whose coordinator is down: every call fails. *)
Definition down : error := errorString "coordinator is down".

Definition downService : Service unit models.CCConfig models.Namespace :=
  {| QueryNamespace := fun _ _ st => (([], Some down), st);
     ModifyNamespace := fun _ _ st => (Some down, st);
     DelNamespace := fun _ _ st => (Some down, st);
     SQLFingerprint := fun _ _ st => ((∅, ∅, Some down), st);
     ProxyConfigFingerprint := fun _ st => ((∅, Some down), st) |}.

Definition downWorld : World unit models.Namespace :=
  {| store := tt; trace := [] |}.

(** ** White space at the ends of a string *)

(** The string begins with the UTF-8 bytes of a white space rune. *)
Definition leadingSpace (s : string) : bool :=
  match s with
  | ε => false
  | String a r1 =>
      asciiSpace a
      || match r1 with
         | ε => false
         | String b r2 =>
             space2 a b
             || match r2 with
                | ε => false
                | String c _ => space3 a b c
                end
         end
  end.

(** The same on a reversed string. *)
Definition leadingSpaceRev (s : string) : bool :=
  match s with
  | ε => false
  | String a r1 =>
      asciiSpace a
      || match r1 with
         | ε => false
         | String b r2 =>
             space2 b a
             || match r2 with
                | ε => false
                | String c _ => space3 c b a
                end
         end
  end.

(** The string ends with the UTF-8 bytes of a white space rune. *)
Definition trailingSpace (s : string) : bool :=
  leadingSpaceRev (revString ε s).

(** ** The routes on the engine

    What [registerURL] sets up: a request is matched against the routes
    of the group [/api/cc], by method and by path, segment by segment; a
    segment [:name] of a route takes any one non-empty segment of the
    path as the parameter [name]. *)

Definition methodName (m : Method) : string :=
  match m with
  | GET => "GET"
  | PUT => "PUT"
  end.

Definition isSlash (a : ascii) : bool := isByte a 47%nat.

Fixpoint noSlash (s : string) : bool :=
  match s with
  | ε => true
  | String a r => negb (isSlash a) && noSlash r
  end.

(** The segments of a path, the empty ones included. *)
Fixpoint segments (path : string) : list string :=
  match path with
  | ε => [ε]
  | String a r =>
      if isSlash a then ε :: segments r
      else match segments r with
           | seg :: rest => String a seg :: rest
           | [] => [String a ε]
           end
  end.

Fixpoint joinSegments (segs : list string) : string :=
  match segs with
  | [] => ε
  | seg :: rest =>
      match rest with
      | [] => seg
      | _ => seg +:+ String (byte 47) (joinSegments rest)
      end
  end.

(** The key of a parameter segment [:key]. *)
Definition paramKey (pattern : string) : option string :=
  match pattern with
  | ε => None
  | String a key => if isByte a 58%nat then Some key else None
  end.

Fixpoint matchSegments (pattern path : list string)
  : option (list (string * string)) :=
  match pattern, path with
  | [], [] => Some []
  | p :: pattern, x :: path =>
      match paramKey p with
      | Some key =>
          if String.eqb x ε then None
          else match matchSegments pattern path with
               | Some ps => Some ((key, x) :: ps)
               | None => None
               end
      | None => if String.eqb p x then matchSegments pattern path else None
      end
  | _, _ => None
  end.

(** [s.engine.Group("/api/cc", ...)]. *)
Definition basePath : string := "/api/cc".

Definition matchRoute (method path : string) (route : Method * string * Handler)
  : option (Handler * list (string * string)) :=
  let '(m, relativePath, hd) := route in
  if String.eqb method (methodName m) then
    match matchSegments (segments (basePath +:+ relativePath))
                        (segments path) with
    | Some ps => Some (hd, ps)
    | None => None
    end
  else None.

Fixpoint firstMatch (method path : string)
    (routes : list (Method * string * Handler))
  : option (Handler * list (string * string)) :=
  match routes with
  | [] => None
  | route :: routes =>
      match matchRoute method path route with
      | Some found => Some found
      | None => firstMatch method path routes
      end
  end.

Definition findRoute (method path : string)
  : option (Handler * list (string * string)) :=
  firstMatch method path registerURL.

(** ** More inputs of the examples *)

(** A service that fails and returns what it had collected so far. *)
Definition staleService : Service unit models.CCConfig models.Namespace :=
  {| QueryNamespace := fun _ _ st => (([], Some down), st);
     ModifyNamespace := fun _ _ st => (Some down, st);
     DelNamespace := fun _ _ st => (Some down, st);
     SQLFingerprint := fun _ _ st =>
       (({[ "select ?" := "select 1" ]}, {[ "insert ?" := "insert 1" ]},
         Some down), st);
     ProxyConfigFingerprint := fun _ st =>
       (({[ nodeA := "abc123" ]}, Some down), st) |}.

(** * Properties *)

(** ** White space *)

(** ASCII and encoded spaces are trimmed at both ends; a lone byte of an
    encoding is not a space. *)
Lemma TrimSpace_examples :
  TrimSpace ("  " +:+ bytes [9; 194; 160; 226; 128; 168]%nat) = ε
  /\ TrimSpace (" shop" +:+ bytes [227; 128; 128; 10]%nat) = "shop"
  /\ TrimSpace (bytes [194; 32]%nat) = bytes [194%nat].
Proof. vm_compute. auto. Qed.

(** ** Running the handlers *)

Ltac run_handler :=
  unfold mbind, M_bind, mret, M_ret, gin_JSON, log_Warn, emit, invoke, deref,
    extend, setRetMessage, setRetCode; simpl;
  rewrite <- ?app_assoc; simpl.

(** Closes the facts about a header once the run is known. *)
Ltac header_facts :=
  split; [reflexivity|]; split; [reflexivity|]; simpl; intuition congruence.

Section Runs.
Context {S CCConfig Namespace : Type}.
Variable svc : Service S CCConfig Namespace.
Variable QueryReqJSON : json.Codec QueryReq.
Variable NamespaceJSON : json.Codec Namespace.
Implicit Types (w : World S Namespace) (s : server CCConfig) (c : Context).

Lemma written_extend w st evs :
  written (extend w st evs)
  = written w ++ written {| store := st; trace := evs |}.
Proof. unfold written, extend; simpl. apply omap_app. Qed.

Lemma calls_extend w st evs :
  calls (extend w st evs)
  = calls w ++ calls {| store := st; trace := evs |}.
Proof. unfold calls, extend; simpl. apply omap_app. Qed.

Lemma Decode_nil {T : Type} (J : json.Codec T) c :
  json.Decode J (Body c) None = (Some (nilError J c), None).
Proof.
  unfold json.Decode, nilError.
  by destruct (json.readValue J (Body c)).
Qed.

Lemma BindJSON_nil {T : Type} (J : json.Codec T) c w :
  gin_BindJSON J c None w
  = Returned (Some (nilError J c), None)
      (extend w (store w) [AbortWithError StatusBadRequest (nilError J c)]).
Proof. unfold gin_BindJSON. by rewrite Decode_nil. Qed.

(** [queryNamespace] binds into a nil [*QueryReq]. *)
Lemma queryNamespace_run s c w :
  queryNamespace svc QueryReqJSON s c w
  = Returned tt
      (extend w (store w)
         [ AbortWithError StatusBadRequest (nilError QueryReqJSON c);
           LogWarn "queryNamespace got invalid data, err: %v"
             (nilError QueryReqJSON c);
           WriteJSON StatusOK
             (BodyQueryNamespaceResp
                {| QueryNamespaceResp.RetHeader :=
                     {| RetCode := -1;
                        RetMessage := Error (nilError QueryReqJSON c) |};
                   QueryNamespaceResp.Data := [] |}) ]).
Proof.
  unfold queryNamespace, mbind, M_bind. rewrite BindJSON_nil.
  by run_handler.
Qed.

(** [modifyNamespace] binds into a nil [*models.Namespace]. *)
Lemma modifyNamespace_run s c w :
  modifyNamespace svc NamespaceJSON s c w
  = Returned tt
      (extend w (store w)
         [ AbortWithError StatusBadRequest (nilError NamespaceJSON c);
           LogWarn "modifyNamespace failed, err: %v"
             (nilError NamespaceJSON c);
           WriteJSON StatusOK
             (BodyRetHeader {| RetCode := -1; RetMessage := ε |}) ]).
Proof.
  unfold modifyNamespace, mbind, M_bind. rewrite BindJSON_nil.
  by run_handler.
Qed.

Lemma delNamespace_blank s c w :
  nameOf c = ε ->
  delNamespace svc s c w
  = Returned tt
      (extend w (store w)
         [ WriteJSON StatusOK
             (BodyRetHeader {| RetCode := -1;
                               RetMessage := "input name is empty" |}) ]).
Proof.
  unfold delNamespace, nameOf. intros ->. by run_handler.
Qed.

Lemma delNamespace_called s c w :
  nameOf c <> ε ->
  delNamespace svc s c w
  = let '(err, st) := DelNamespace svc (nameOf c) (cfg s) (store w) in
    Returned tt
      (extend w st
         [ ServiceCall (OpDelNamespace (nameOf c));
           WriteJSON StatusOK
             (BodyRetHeader
                match err with
                | Some e =>
                    {| RetCode := -1;
                       RetMessage := "delete namespace faild, " +:+ Error e |}
                | None => {| RetCode := 0; RetMessage := "SUCC" |}
                end) ]).
Proof.
  unfold delNamespace, nameOf. intros Hne.
  apply String.eqb_neq in Hne. rewrite Hne. run_handler.
  destruct (DelNamespace svc _ _ _) as [[e|] st]; by run_handler.
Qed.

Lemma sqlFingerprint_blank s c w :
  nameOf c = ε ->
  sqlFingerprint svc s c w
  = Returned tt
      (extend w (store w)
         [ WriteJSON StatusOK
             (BodySqlFingerprintResp
                {| sqlFingerprintResp.RetHeader :=
                     {| RetCode := -1;
                        RetMessage := "input name is empty" |};
                   sqlFingerprintResp.ErrSQLs := ∅;
                   sqlFingerprintResp.SlowSQLs := ∅ |}) ]).
Proof.
  unfold sqlFingerprint, nameOf. intros ->. by run_handler.
Qed.

Lemma sqlFingerprint_called s c w :
  nameOf c <> ε ->
  sqlFingerprint svc s c w
  = let '(slowSQLs, errSQLs, err, st) :=
      SQLFingerprint svc (nameOf c) (cfg s) (store w) in
    Returned tt
      (extend w st
         [ ServiceCall (OpSQLFingerprint (nameOf c));
           WriteJSON StatusOK
             (BodySqlFingerprintResp
                {| sqlFingerprintResp.RetHeader :=
                     match err with
                     | Some e => {| RetCode := -1; RetMessage := Error e |}
                     | None => {| RetCode := 0; RetMessage := "SUCC" |}
                     end;
                   sqlFingerprintResp.ErrSQLs := errSQLs;
                   sqlFingerprintResp.SlowSQLs := slowSQLs |}) ]).
Proof.
  unfold sqlFingerprint, nameOf. intros Hne.
  apply String.eqb_neq in Hne. rewrite Hne. run_handler.
  destruct (SQLFingerprint svc _ _ _) as [[[sl er] [e|]] st]; by run_handler.
Qed.

Lemma proxyConfigFingerprint_run s c w :
  proxyConfigFingerprint svc s c w
  = let '(data, err, st) := ProxyConfigFingerprint svc (cfg s) (store w) in
    Returned tt
      (extend w st
         [ ServiceCall OpProxyConfigFingerprint;
           WriteJSON StatusOK
             (BodyProxyConfigFingerprintResp
                {| proxyConfigFingerprintResp.RetHeader :=
                     match err with
                     | Some e => {| RetCode := -1; RetMessage := Error e |}
                     | None => {| RetCode := 0; RetMessage := "SUCC" |}
                     end;
                   proxyConfigFingerprintResp.Data := data |}) ]).
Proof.
  unfold proxyConfigFingerprint. run_handler.
  destruct (ProxyConfigFingerprint svc _ _) as [[data [e|]] st];
    by run_handler.
Qed.
End Runs.

(** ** The request binding of [queryNamespace] and [modifyNamespace] *)

(** C8: [queryNamespace] binds the body into a nil [*QueryReq] and
    [modifyNamespace] into a nil [*models.Namespace], so for every
    request the binding returns an error; both handlers take the error
    branch and answer with [ret_code] -1, no service call is made, the
    store is as it was, and the handler returns (no nil dereference). *)
Theorem nil_binding_always_fails
    {S CCConfig Namespace : Type} (svc : Service S CCConfig Namespace)
    (QueryReqJSON : json.Codec QueryReq) (NamespaceJSON : json.Codec Namespace)
    (s : server CCConfig) (c : Context) (w : World S Namespace) :
  (exists e w1 w',
      gin_BindJSON QueryReqJSON c None w = Returned (Some e, None) w1
      /\ queryNamespace svc QueryReqJSON s c w = Returned tt w'
      /\ trace w'
         = trace w
           ++ [ AbortWithError StatusBadRequest e;
                LogWarn "queryNamespace got invalid data, err: %v" e;
                WriteJSON StatusOK
                  (BodyQueryNamespaceResp
                     {| QueryNamespaceResp.RetHeader :=
                          {| RetCode := -1; RetMessage := Error e |};
                        QueryNamespaceResp.Data := [] |}) ]
      /\ calls w' = calls w /\ store w' = store w)
  /\ (exists e w1 w',
      gin_BindJSON NamespaceJSON c None w = Returned (Some e, None) w1
      /\ modifyNamespace svc NamespaceJSON s c w = Returned tt w'
      /\ trace w'
         = trace w
           ++ [ AbortWithError StatusBadRequest e;
                LogWarn "modifyNamespace failed, err: %v" e;
                WriteJSON StatusOK
                  (BodyRetHeader {| RetCode := -1; RetMessage := ε |}) ]
      /\ calls w' = calls w /\ store w' = store w).
Proof.
  split.
  - exists (nilError QueryReqJSON c). eexists. eexists.
    rewrite BindJSON_nil, queryNamespace_run, calls_extend.
    repeat split; try reflexivity. apply app_nil_r.
  - exists (nilError NamespaceJSON c). eexists. eexists.
    rewrite BindJSON_nil, modifyNamespace_run, calls_extend.
    repeat split; try reflexivity. apply app_nil_r.
Qed.

(** C1 (the code does otherwise): on a request whose body is one
    well-formed JSON value, [queryNamespace] does not call the namespace
    query service and does not answer [SUCC]: it answers [ret_code] -1
    with the message of [InvalidUnmarshalError] and no data. *)
Theorem queryNamespace_rejects_wellformed_body
    {S CCConfig Namespace : Type} (svc : Service S CCConfig Namespace)
    (QueryReqJSON : json.Codec QueryReq)
    (s : server CCConfig) (c : Context) (w : World S Namespace) :
  json.readValue QueryReqJSON (Body c) = None ->
  exists w',
    queryNamespace svc QueryReqJSON s c w = Returned tt w'
    /\ written w'
       = written w
         ++ [ (StatusOK,
               BodyQueryNamespaceResp
                 {| QueryNamespaceResp.RetHeader :=
                      {| RetCode := -1;
                         RetMessage :=
                           "json: Unmarshal(nil "
                           +:+ json.typeString QueryReqJSON +:+ ")" |};
                    QueryNamespaceResp.Data := [] |}) ]
    /\ calls w' = calls w.
Proof.
  intros Hread. eexists.
  rewrite queryNamespace_run, written_extend, calls_extend.
  unfold nilError. rewrite Hread.
  repeat split; try reflexivity. apply app_nil_r.
Qed.

Lemma queryNamespace_rejects_wellformed_body_witness :
  exists w',
    queryNamespace (Core.svc "unreachable")
      (lenientJSON QueryReq "*main.QueryReq") server0
      {| Params := []; Body := namesBody |} world0 = Returned tt w'
    /\ written w'
       = [ (StatusOK,
            BodyQueryNamespaceResp
              {| QueryNamespaceResp.RetHeader :=
                   {| RetCode := -1;
                      RetMessage := "json: Unmarshal(nil *main.QueryReq)" |};
                 QueryNamespaceResp.Data := [] |}) ]
    /\ calls w' = [].
Proof.
  exact (queryNamespace_rejects_wellformed_body (Core.svc "unreachable")
           (lenientJSON QueryReq "*main.QueryReq") server0
           {| Params := []; Body := namesBody |} world0 eq_refl).
Defined.

(** C3 (the code does otherwise): [modifyNamespace] answers every
    request with [ret_code] -1 and an empty [ret_message]. *)
Theorem modifyNamespace_failure_has_empty_message
    {S CCConfig Namespace : Type} (svc : Service S CCConfig Namespace)
    (NamespaceJSON : json.Codec Namespace)
    (s : server CCConfig) (c : Context) (w : World S Namespace) :
  exists w',
    modifyNamespace svc NamespaceJSON s c w = Returned tt w'
    /\ written w'
       = written w
         ++ [ (StatusOK, BodyRetHeader {| RetCode := -1; RetMessage := ε |}) ].
Proof.
  eexists. rewrite modifyNamespace_run, written_extend. by split.
Qed.

(** C2 (the code does otherwise): [modifyNamespace] followed by
    [queryNamespace] stores nothing and returns no namespace.  Both
    answer [ret_code] -1, the data of the query is empty, and the store is
    the one before the two requests. *)
Theorem modify_then_query_returns_nothing
    {S CCConfig Namespace : Type} (svc : Service S CCConfig Namespace)
    (QueryReqJSON : json.Codec QueryReq) (NamespaceJSON : json.Codec Namespace)
    (s : server CCConfig) (c1 c2 : Context) (w : World S Namespace) :
  exists w1 w2 e,
    modifyNamespace svc NamespaceJSON s c1 w = Returned tt w1
    /\ queryNamespace svc QueryReqJSON s c2 w1 = Returned tt w2
    /\ written w2
       = written w
         ++ [ (StatusOK, BodyRetHeader {| RetCode := -1; RetMessage := ε |});
              (StatusOK,
               BodyQueryNamespaceResp
                 {| QueryNamespaceResp.RetHeader :=
                      {| RetCode := -1; RetMessage := Error e |};
                    QueryNamespaceResp.Data := [] |}) ]
    /\ calls w2 = calls w
    /\ store w2 = store w.
Proof.
  eexists. eexists. exists (nilError QueryReqJSON c2).
  rewrite modifyNamespace_run. split; [reflexivity|].
  rewrite queryNamespace_run. split; [reflexivity|].
  rewrite !written_extend, !calls_extend; simpl.
  rewrite <- !app_assoc, !app_nil_r. by repeat split.
Qed.

(** ** Validation of the name *)

(** C9: when the [:name] parameter is empty or white space only,
    [delNamespace] and [sqlFingerprint] answer [ret_code] -1 with the
    message [input name is empty], call no service and leave the store as
    it was. *)
Theorem blank_name_is_rejected
    {S CCConfig Namespace : Type} (svc : Service S CCConfig Namespace)
    (s : server CCConfig) (c : Context) (w : World S Namespace) :
  TrimSpace (gin_Param c "name") = ε ->
  (exists w',
      delNamespace svc s c w = Returned tt w'
      /\ written w'
         = written w
           ++ [ (StatusOK,
                 BodyRetHeader {| RetCode := -1;
                                  RetMessage := "input name is empty" |}) ]
      /\ calls w' = calls w /\ store w' = store w)
  /\ (exists w',
      sqlFingerprint svc s c w = Returned tt w'
      /\ written w'
         = written w
           ++ [ (StatusOK,
                 BodySqlFingerprintResp
                   {| sqlFingerprintResp.RetHeader :=
                        {| RetCode := -1;
                           RetMessage := "input name is empty" |};
                      sqlFingerprintResp.ErrSQLs := ∅;
                      sqlFingerprintResp.SlowSQLs := ∅ |}) ]
      /\ calls w' = calls w /\ store w' = store w).
Proof.
  intros Hblank. split; eexists.
  - rewrite (delNamespace_blank svc s c w Hblank).
    rewrite written_extend, calls_extend.
    repeat split; try reflexivity. apply app_nil_r.
  - rewrite (sqlFingerprint_blank svc s c w Hblank).
    rewrite written_extend, calls_extend.
    repeat split; try reflexivity. apply app_nil_r.
Qed.

Lemma blank_name_is_rejected_witness :
  TrimSpace (gin_Param (request (" " +:+ bytes [9; 194; 160]%nat) ε) "name") = ε
  /\ (exists w',
      delNamespace downService server0
        (request (" " +:+ bytes [9; 194; 160]%nat) ε) downWorld = Returned tt w'
      /\ written w'
         = [ (StatusOK,
              BodyRetHeader {| RetCode := -1;
                               RetMessage := "input name is empty" |}) ]
      /\ calls w' = [] /\ store w' = tt)
  /\ (exists w',
      sqlFingerprint downService server0
        (request (" " +:+ bytes [9; 194; 160]%nat) ε) downWorld = Returned tt w'
      /\ written w'
         = [ (StatusOK,
              BodySqlFingerprintResp
                {| sqlFingerprintResp.RetHeader :=
                     {| RetCode := -1;
                        RetMessage := "input name is empty" |};
                   sqlFingerprintResp.ErrSQLs := ∅;
                   sqlFingerprintResp.SlowSQLs := ∅ |}) ]
      /\ calls w' = [] /\ store w' = tt).
Proof.
  split; [reflexivity|].
  exact (blank_name_is_rejected downService server0
           (request (" " +:+ bytes [9; 194; 160]%nat) ε) downWorld eq_refl).
Defined.

(** ** The response header *)

(** C10: every handler returns after writing one body; its [ret_code]
    is 0 or -1, it is 0 exactly when no step of the handler (validation
    of the input, binding of the request, the delegated service call)
    failed, and then [ret_message] is [SUCC]. *)
Theorem ret_code_tells_success
    {S CCConfig Namespace : Type} (svc : Service S CCConfig Namespace)
    (QueryReqJSON : json.Codec QueryReq) (NamespaceJSON : json.Codec Namespace)
    (hd : Handler) (s : server CCConfig) (c : Context) (w : World S Namespace) :
  exists w' b,
    handle svc QueryReqJSON NamespaceJSON hd s c w = Returned tt w'
    /\ written w' = written w ++ [(StatusOK, b)]
    /\ (RetCode (ret_header b) = 0%Z \/ RetCode (ret_header b) = (-1)%Z)
    /\ (RetCode (ret_header b) = 0%Z
        <-> firstFailure svc QueryReqJSON NamespaceJSON hd s c (store w) = None)
    /\ (RetCode (ret_header b) = 0%Z -> RetMessage (ret_header b) = "SUCC")
    /\ (firstFailure svc QueryReqJSON NamespaceJSON hd s c (store w) <> None
        -> RetCode (ret_header b) = (-1)%Z).
Proof.
  destruct hd; unfold handle, firstFailure, validationFails, bindingError,
    serviceError.
  - eexists. eexists. rewrite queryNamespace_run, written_extend.
    rewrite Decode_nil. simpl. header_facts.
  - eexists. eexists. rewrite modifyNamespace_run, written_extend.
    rewrite Decode_nil. simpl. header_facts.
  - destruct (String.eqb_spec (nameOf c) ε) as [Hb|Hn].
    + eexists. eexists. rewrite (delNamespace_blank svc s c w Hb).
      rewrite written_extend. simpl. header_facts.
    + rewrite (delNamespace_called svc s c w Hn).
      destruct (DelNamespace svc _ _ _) as [[e|] st]; eexists; eexists;
        rewrite written_extend; simpl; header_facts.
  - destruct (String.eqb_spec (nameOf c) ε) as [Hb|Hn].
    + eexists. eexists. rewrite (sqlFingerprint_blank svc s c w Hb).
      rewrite written_extend. simpl. header_facts.
    + rewrite (sqlFingerprint_called svc s c w Hn).
      destruct (SQLFingerprint svc _ _ _) as [[[sl er] [e|]] st];
        eexists; eexists;
        rewrite written_extend; simpl; header_facts.
  - rewrite proxyConfigFingerprint_run.
    destruct (ProxyConfigFingerprint svc _ _) as [[data [e|]] st];
      eexists; eexists;
      rewrite written_extend; simpl; header_facts.
Qed.

(** ** The message of a service error *)

(** C4, as amended: when the service call of [delNamespace],
    [sqlFingerprint] or [proxyConfigFingerprint] fails, the answer has
    [ret_code] -1 and its [ret_message] is the message of the error,
    as it is for the last two and after the prefix
    [delete namespace faild, ] for [delNamespace]. *)
Theorem service_error_message
    {S CCConfig Namespace : Type} (svc : Service S CCConfig Namespace)
    (QueryReqJSON : json.Codec QueryReq) (NamespaceJSON : json.Codec Namespace)
    (hd : Handler) (s : server CCConfig) (c : Context) (w : World S Namespace)
    (e : error) :
  firstFailure svc QueryReqJSON NamespaceJSON hd s c (store w)
  = Some (ServiceFailed e) ->
  exists w' b,
    handle svc QueryReqJSON NamespaceJSON hd s c w = Returned tt w'
    /\ written w' = written w ++ [(StatusOK, b)]
    /\ RetCode (ret_header b) = (-1)%Z
    /\ RetMessage (ret_header b) = errorPrefix hd +:+ Error e.
Proof.
  destruct hd; unfold handle, firstFailure, validationFails, bindingError,
    serviceError.
  - rewrite Decode_nil. discriminate.
  - rewrite Decode_nil. discriminate.
  - destruct (String.eqb_spec (nameOf c) ε) as [Hb|Hn]; [discriminate|].
    rewrite (delNamespace_called svc s c w Hn).
    destruct (DelNamespace svc _ _ _) as [[e'|] st]; simpl; [|discriminate].
    intros [= ->]. eexists. eexists. rewrite written_extend. by repeat split.
  - destruct (String.eqb_spec (nameOf c) ε) as [Hb|Hn]; [discriminate|].
    rewrite (sqlFingerprint_called svc s c w Hn).
    destruct (SQLFingerprint svc _ _ _) as [[[sl er] [e'|]] st]; simpl;
      [|discriminate].
    intros [= ->]. eexists. eexists. rewrite written_extend. by repeat split.
  - rewrite proxyConfigFingerprint_run.
    destruct (ProxyConfigFingerprint svc _ _) as [[data [e'|]] st]; simpl;
      [|discriminate].
    intros [= ->]. eexists. eexists. rewrite written_extend. by repeat split.
Qed.

Lemma service_error_message_witness :
  firstFailure downService (lenientJSON QueryReq "*main.QueryReq")
    (lenientJSON models.Namespace "*models.Namespace")
    HProxyConfigFingerprint server0 (request ε ε) tt
  = Some (ServiceFailed down)
  /\ exists w' b,
    proxyConfigFingerprint downService server0 (request ε ε) downWorld
    = Returned tt w'
    /\ written w' = [(StatusOK, b)]
    /\ RetCode (ret_header b) = (-1)%Z
    /\ RetMessage (ret_header b) = "coordinator is down".
Proof.
  split; [reflexivity|].
  exact (service_error_message downService
           (lenientJSON QueryReq "*main.QueryReq")
           (lenientJSON models.Namespace "*models.Namespace")
           HProxyConfigFingerprint server0 (request ε ε) downWorld down
           eq_refl).
Defined.

(** C4, as stated, fails: the coordinator is down, [service.DelNamespace]
    fails with that error, and the [ret_message] of [delNamespace] is
    not the message of the error but the message after a prefix. *)
Lemma delNamespace_error_is_prefixed :
  firstFailure downService (lenientJSON QueryReq "*main.QueryReq")
    (lenientJSON models.Namespace "*models.Namespace")
    HDelNamespace server0 (request "shop" ε) tt
  = Some (ServiceFailed down)
  /\ delNamespace downService server0 (request "shop" ε) downWorld
     = Returned tt
         {| store := tt;
            trace :=
              [ ServiceCall (OpDelNamespace "shop");
                WriteJSON StatusOK
                  (BodyRetHeader
                     {| RetCode := -1;
                        RetMessage :=
                          "delete namespace faild, coordinator is down" |}) ] |}
  /\ "delete namespace faild, coordinator is down" <> Error down.
Proof.
  split; [reflexivity|]. split; [reflexivity|]. discriminate.
Qed.

(** ** Deleting a namespace that does not exist *)

Lemma withStore_same (st : Core.State) : Core.withStore st (Core.ns st) = st.
Proof. by destruct st. Qed.

Lemma DelNamespace_missing (n : string) (cf : models.CCConfig) (st : Core.State) :
  NamespaceStore.namespaces (Core.ns st) !! n = None ->
  Core.DelNamespace n cf st = (Some (NamespaceStore.notFound n), st).
Proof.
  intros Hn. unfold Core.DelNamespace, NamespaceStore.delete.
  rewrite Hn. by rewrite withStore_same.
Qed.

(** C6, as amended: when the trimmed name denotes no namespace,
    [delNamespace] answers [ret_code] -1 and leaves the store as it was;
    the message is [input name is empty] for a blank name and otherwise
    [delete namespace faild, ] followed by the message of the store's
    [NotFoundError]. *)
Theorem delNamespace_of_missing_namespace
    (marker : string) (s : server models.CCConfig) (c : Context)
    (w : World Core.State models.Namespace) :
  NamespaceStore.namespaces (Core.ns (store w)) !! nameOf c = None ->
  exists w' h,
    delNamespace (Core.svc marker) s c w = Returned tt w'
    /\ written w' = written w ++ [(StatusOK, BodyRetHeader h)]
    /\ RetCode h = (-1)%Z
    /\ RetMessage h
       = (if String.eqb (nameOf c) ε then "input name is empty"
          else "delete namespace faild, "
               +:+ Error (NamespaceStore.notFound (nameOf c)))
    /\ store w' = store w.
Proof.
  intros Hmiss.
  destruct (String.eqb_spec (nameOf c) ε) as [Hb|Hn].
  - eexists. eexists. rewrite (delNamespace_blank _ s c w Hb).
    rewrite written_extend. by repeat split.
  - rewrite (delNamespace_called _ s c w Hn). simpl.
    rewrite (DelNamespace_missing _ _ _ Hmiss).
    eexists. eexists. rewrite written_extend. by repeat split.
Qed.

Lemma delNamespace_of_missing_namespace_witness :
  NamespaceStore.namespaces (Core.ns (store world0))
    !! nameOf (request " ghost " ε) = None
  /\ exists w' h,
    delNamespace (Core.svc "unreachable") server0 (request " ghost " ε) world0
    = Returned tt w'
    /\ written w' = [(StatusOK, BodyRetHeader h)]
    /\ RetCode h = (-1)%Z
    /\ RetMessage h = "delete namespace faild, namespace ghost not found"
    /\ store w' = state0.
Proof.
  split; [reflexivity|].
  exact (delNamespace_of_missing_namespace "unreachable" server0
           (request " ghost " ε) world0 eq_refl).
Defined.

(** C6, as stated, fails: the name of one space denotes no namespace of
    the empty store, yet [delNamespace] does not consult the store and
    its message is [input name is empty], which is not the message of a
    [NotFoundError], with the prefix of the handler or without it. *)
Lemma delNamespace_blank_name_is_not_NotFound :
  NamespaceStore.namespaces (Core.ns (store world0)) !! " " = None
  /\ delNamespace (Core.svc "unreachable") server0 (request " " ε) world0
     = Returned tt
         {| store := state0;
            trace :=
              [ WriteJSON StatusOK
                  (BodyRetHeader
                     {| RetCode := -1;
                        RetMessage := "input name is empty" |}) ] |}
  /\ (forall n,
        "input name is empty"
        <> "delete namespace faild, " +:+ Error (NamespaceStore.notFound n))
  /\ (forall n, "input name is empty" <> Error (NamespaceStore.notFound n)).
Proof.
  split; [reflexivity|]. split; [reflexivity|].
  split; intros n; discriminate.
Qed.

(** ** The namespace store *)

(** In the store, a valid namespace that was upserted is the one
    namespace listed under its name. *)
Lemma upsert_then_list (n : models.Namespace) (st : NamespaceStore.t) :
  NamespaceStore.valid n = true ->
  fst (NamespaceStore.upsert n st) = None
  /\ NamespaceStore.list [models.name n] (snd (NamespaceStore.upsert n st))
     = [n].
Proof.
  intros Hvalid. unfold NamespaceStore.upsert. rewrite Hvalid.
  split; [reflexivity|]. unfold NamespaceStore.list; simpl.
  by rewrite lookup_insert_eq.
Qed.

Lemma upsert_then_list_shop :
  NamespaceStore.valid shop = true
  /\ NamespaceStore.list ["shop"]
       (snd (NamespaceStore.upsert shop emptyStore)) = [shop].
Proof.
  split; [reflexivity|]. exact (proj2 (upsert_then_list shop emptyStore eq_refl)).
Qed.

(** ** Verification of the fleet *)

Section Verify.
Import ConfigFingerprintVerifier.
Variable net : string -> option string.
Variable now : nat.

Lemma poll_result addr reg :
  tag (fst (FleetRegistry.poll net now addr reg)) = reported net addr.
Proof.
  unfold FleetRegistry.poll, reported. by destruct (net addr).
Qed.

Lemma poll_keeps_nodes addr reg :
  addr ∈ dom (FleetRegistry.nodes reg) ->
  dom (FleetRegistry.nodes (snd (FleetRegistry.poll net now addr reg)))
  = dom (FleetRegistry.nodes reg).
Proof.
  intros Hin. unfold FleetRegistry.poll.
  destruct (net addr); simpl.
  - rewrite dom_insert_L. apply set_eq. intros a.
    rewrite elem_of_union, elem_of_singleton.
    split; [intros [->|Ha]; done | by right].
  - apply dom_alter_L.
Qed.

Lemma pollAll_cons addr addrs reg :
  pollAll net now (addr :: addrs) reg
  = (<[addr := tag (fst (FleetRegistry.poll net now addr
                           (snd (pollAll net now addrs reg))))]>
       (fst (pollAll net now addrs reg)),
     snd (FleetRegistry.poll net now addr (snd (pollAll net now addrs reg)))).
Proof.
  unfold pollAll; simpl.
  by destruct (FleetRegistry.poll net now addr _).
Qed.

Lemma pollAll_lookup addrs reg addr :
  fst (pollAll net now addrs reg) !! addr
  = if decide (addr ∈ addrs) then Some (reported net addr) else None.
Proof.
  induction addrs as [|a addrs IH].
  - simpl. rewrite lookup_empty.
    destruct (decide (addr ∈ [])) as [Hin|]; [by inversion Hin | done].
  - rewrite pollAll_cons; simpl. rewrite poll_result.
    destruct (decide (a = addr)) as [->|Hne].
    + rewrite lookup_insert_eq. rewrite decide_True; [done | by left].
    + rewrite lookup_insert_ne by done. rewrite IH.
      destruct (decide (addr ∈ addrs)) as [Hin|Hout].
      * rewrite decide_True; [done | by right].
      * rewrite decide_False; [done|].
        intros [?|?]%elem_of_cons; congruence.
Qed.

Lemma pollAll_keeps_nodes addrs reg :
  (forall a, a ∈ addrs -> a ∈ dom (FleetRegistry.nodes reg)) ->
  dom (FleetRegistry.nodes (snd (pollAll net now addrs reg)))
  = dom (FleetRegistry.nodes reg).
Proof.
  induction addrs as [|a addrs IH]; intros Hall; [done|].
  assert (Htail : forall a', a' ∈ addrs -> a' ∈ dom (FleetRegistry.nodes reg))
    by (intros a' Ha'; apply Hall; by right).
  rewrite pollAll_cons; simpl. rewrite poll_keeps_nodes.
  - by apply IH.
  - rewrite (IH Htail). apply Hall. by left.
Qed.

Lemma verify_lookup reg addr :
  fst (verify net now reg) !! addr
  = if decide (addr ∈ dom (FleetRegistry.nodes reg))
    then Some (reported net addr) else None.
Proof.
  unfold verify. rewrite pollAll_lookup.
  destruct (decide (addr ∈ dom (FleetRegistry.nodes reg))) as [Hin|Hout].
  - rewrite decide_True; [done | by apply elem_of_elements].
  - rewrite decide_False; [done | by rewrite elem_of_elements].
Qed.

Lemma verify_keeps_nodes reg :
  dom (FleetRegistry.nodes (snd (verify net now reg)))
  = dom (FleetRegistry.nodes reg).
Proof.
  apply pollAll_keeps_nodes. intros a Ha. by apply elem_of_elements in Ha.
Qed.
End Verify.

(** C5: whatever nodes of the fleet are unreachable, the verification
    succeeds ([ret_code] 0, [SUCC]); the mapping returned has an entry for
    every known node and no other, the unreachable marker for a node that
    did not answer and its fingerprint for a node that did; and every
    node is still registered afterwards. *)
Theorem verify_tolerates_unreachable_nodes
    (marker : string) (s : server models.CCConfig) (c : Context)
    (w : World Core.State models.Namespace) :
  exists w' data,
    proxyConfigFingerprint (Core.svc marker) s c w = Returned tt w'
    /\ written w'
       = written w
         ++ [ (StatusOK,
               BodyProxyConfigFingerprintResp
                 {| proxyConfigFingerprintResp.RetHeader :=
                      {| RetCode := 0; RetMessage := "SUCC" |};
                    proxyConfigFingerprintResp.Data := data |}) ]
    /\ dom data = dom (FleetRegistry.nodes (Core.fleet (store w)))
    /\ (forall addr,
          addr ∈ dom (FleetRegistry.nodes (Core.fleet (store w))) ->
          Core.net (store w) addr = None -> data !! addr = Some marker)
    /\ (forall addr fp,
          addr ∈ dom (FleetRegistry.nodes (Core.fleet (store w))) ->
          Core.net (store w) addr = Some fp -> data !! addr = Some fp)
    /\ dom (FleetRegistry.nodes (Core.fleet (store w')))
       = dom (FleetRegistry.nodes (Core.fleet (store w))).
Proof.
  rewrite proxyConfigFingerprint_run. simpl. unfold Core.ProxyConfigFingerprint.
  pose proof (verify_lookup (Core.net (store w)) (Core.now (store w))
                (Core.fleet (store w))) as Hlook.
  pose proof (verify_keeps_nodes (Core.net (store w)) (Core.now (store w))
                (Core.fleet (store w))) as Hkeep.
  destruct (ConfigFingerprintVerifier.verify _ _ _) as [res f]; simpl in *.
  eexists. eexists. rewrite written_extend. simpl.
  split; [reflexivity|]. split; [reflexivity|].
  split; [|split; [|split]].
  - apply set_eq. intros addr. rewrite !elem_of_dom, lookup_fmap, Hlook.
    case_decide as Hin.
    + simpl. rewrite elem_of_dom in Hin. split; [done | by eexists].
    + simpl. rewrite elem_of_dom in Hin. split; [by intros [? ?] | done].
  - intros addr Hin Hnet. rewrite lookup_fmap, Hlook.
    rewrite decide_True by done. unfold ConfigFingerprintVerifier.reported. by rewrite Hnet.
  - intros addr fp Hin Hnet. rewrite lookup_fmap, Hlook.
    rewrite decide_True by done. unfold ConfigFingerprintVerifier.reported. by rewrite Hnet.
  - done.
Qed.

(** The scenario of two nodes: A answers [abc123], B times out. *)
Lemma verify_two_nodes :
  fst (Core.ProxyConfigFingerprint "unreachable" (cfg server0) state0)
  = ({[ nodeA := "abc123"; nodeB := "unreachable" ]}, None).
Proof. vm_compute. reflexivity. Qed.

(** * Further properties of the handlers *)

(** ** Trimming *)

Lemma append_cons x r t : String x r +:+ t = String x (r +:+ t).
Proof. reflexivity. Qed.

Lemma append_assoc s : forall t u, (s +:+ t) +:+ u = s +:+ (t +:+ u).
Proof.
  induction s as [|x r IH]; intros t u; [done|].
  by rewrite !append_cons, IH.
Qed.

Lemma append_empty_r s : s +:+ ε = s.
Proof.
  induction s as [|x r IH]; [done|]. by rewrite append_cons, IH.
Qed.

Lemma revString_revString s : forall a b,
  revString b (revString a s) = revString (s +:+ b) a.
Proof.
  induction s as [|x r IH]; intros a b; simpl; [done|].
  by rewrite IH, append_cons.
Qed.

Lemma revString_involutive s : revString ε (revString ε s) = s.
Proof. rewrite revString_revString. simpl. apply append_empty_r. Qed.

Lemma revString_acc s : forall acc, revString acc s = revString ε s +:+ acc.
Proof.
  induction s as [|x r IH]; intros acc; simpl; [done|].
  rewrite (IH (String x acc)), (IH (String x ε)).
  by rewrite append_assoc.
Qed.

Lemma revString_append p : forall y acc,
  revString acc (p +:+ y) = revString (revString acc p) y.
Proof.
  induction p as [|x r IH]; intros y acc; [done|].
  rewrite append_cons. simpl. apply IH.
Qed.

(** Induction on a string by the strings shorter than it. *)
Lemma string_length_ind (P : string -> Prop) :
  (forall s, (forall t, String.length t < String.length s -> P t) -> P s) ->
  forall s, P s.
Proof.
  intros Hstep s. remember (String.length s) as n eqn:Hn.
  revert s Hn. induction (lt_wf n) as [n _ IH]. intros s ->.
  apply Hstep. intros t Ht. by apply (IH (String.length t)).
Qed.

Lemma TrimLeftSpace_eq s :
  TrimLeftSpace s
  = match s with
    | ε => ε
    | String a r1 =>
        if asciiSpace a then TrimLeftSpace r1
        else match r1 with
             | ε => s
             | String b r2 =>
                 if space2 a b then TrimLeftSpace r2
                 else match r2 with
                      | ε => s
                      | String c r3 =>
                          if space3 a b c then TrimLeftSpace r3 else s
                      end
             end
    end.
Proof. by destruct s. Qed.

Lemma trimLeftSpaceRev_eq s :
  trimLeftSpaceRev s
  = match s with
    | ε => ε
    | String a r1 =>
        if asciiSpace a then trimLeftSpaceRev r1
        else match r1 with
             | ε => s
             | String b r2 =>
                 if space2 b a then trimLeftSpaceRev r2
                 else match r2 with
                      | ε => s
                      | String c r3 =>
                          if space3 c b a then trimLeftSpaceRev r3 else s
                      end
             end
    end.
Proof. by destruct s. Qed.

Lemma TrimLeftSpace_no_leadingSpace s : leadingSpace (TrimLeftSpace s) = false.
Proof.
  induction s as [s IH] using string_length_ind.
  destruct s as [|a [|b [|c r]]]; rewrite TrimLeftSpace_eq; cbv beta iota.
  - done.
  - destruct (asciiSpace a) eqn:Ha; simpl; [done | by rewrite Ha].
  - destruct (asciiSpace a) eqn:Ha.
    + apply IH. simpl. lia.
    + destruct (space2 a b) eqn:Hab; simpl; [done|]. by rewrite Ha, Hab.
  - destruct (asciiSpace a) eqn:Ha.
    + apply IH. simpl. lia.
    + destruct (space2 a b) eqn:Hab.
      * apply IH. simpl. lia.
      * destruct (space3 a b c) eqn:Habc.
        -- apply IH. simpl. lia.
        -- simpl. by rewrite Ha, Hab, Habc.
Qed.

Lemma trimLeftSpaceRev_no_leadingSpace s :
  leadingSpaceRev (trimLeftSpaceRev s) = false.
Proof.
  induction s as [s IH] using string_length_ind.
  destruct s as [|a [|b [|c r]]]; rewrite trimLeftSpaceRev_eq; cbv beta iota.
  - done.
  - destruct (asciiSpace a) eqn:Ha; simpl; [done | by rewrite Ha].
  - destruct (asciiSpace a) eqn:Ha.
    + apply IH. simpl. lia.
    + destruct (space2 b a) eqn:Hab; simpl; [done|]. by rewrite Ha, Hab.
  - destruct (asciiSpace a) eqn:Ha.
    + apply IH. simpl. lia.
    + destruct (space2 b a) eqn:Hab.
      * apply IH. simpl. lia.
      * destruct (space3 c b a) eqn:Habc.
        -- apply IH. simpl. lia.
        -- simpl. by rewrite Ha, Hab, Habc.
Qed.

Lemma TrimLeftSpace_fixed s : leadingSpace s = false -> TrimLeftSpace s = s.
Proof.
  destruct s as [|a [|b [|c r]]]; simpl; try done.
  - by intros ->%orb_false_elim%proj1.
  - intros [-> [-> _]%orb_false_elim]%orb_false_elim. done.
  - intros [-> [-> ->]%orb_false_elim]%orb_false_elim. done.
Qed.

Lemma trimLeftSpaceRev_fixed s :
  leadingSpaceRev s = false -> trimLeftSpaceRev s = s.
Proof.
  destruct s as [|a [|b [|c r]]]; simpl; try done.
  - by intros ->%orb_false_elim%proj1.
  - intros [-> [-> _]%orb_false_elim]%orb_false_elim. done.
  - intros [-> [-> ->]%orb_false_elim]%orb_false_elim. done.
Qed.

(** What [trimLeftSpaceRev] keeps is the end of its argument. *)
Lemma trimLeftSpaceRev_suffix s : exists p, s = p +:+ trimLeftSpaceRev s.
Proof.
  induction s as [s IH] using string_length_ind.
  assert (Hself : forall t : string, exists p, t = p +:+ t) by (by exists ε).
  destruct s as [|a [|b [|c r]]]; rewrite trimLeftSpaceRev_eq; cbv beta iota.
  - by exists ε.
  - destruct (asciiSpace a); [by exists (String a ε) | apply Hself].
  - destruct (asciiSpace a).
    + destruct (IH (String b ε)) as [p Hp]; [simpl; lia|].
      exists (String a p). rewrite ?append_cons. by rewrite <- Hp.
    + destruct (space2 b a); [by exists (String a (String b ε)) | apply Hself].
  - destruct (asciiSpace a).
    + destruct (IH (String b (String c r))) as [p Hp]; [simpl; lia|].
      exists (String a p). rewrite ?append_cons. by rewrite <- Hp.
    + destruct (space2 b a).
      * destruct (IH (String c r)) as [p Hp]; [simpl; lia|].
        exists (String a (String b p)). rewrite ?append_cons. by rewrite <- Hp.
      * destruct (space3 c b a); [|apply Hself].
        destruct (IH r) as [p Hp]; [simpl; lia|].
        exists (String a (String b (String c p))). rewrite ?append_cons. by rewrite <- Hp.
Qed.

(** What [TrimRightSpace] keeps is the beginning of its argument. *)
Lemma TrimRightSpace_prefix s : exists t, s = TrimRightSpace s +:+ t.
Proof.
  unfold TrimRightSpace.
  destruct (trimLeftSpaceRev_suffix (revString ε s)) as [p Hp].
  exists (revString ε p).
  rewrite <- (revString_involutive s) at 1. rewrite Hp at 1.
  rewrite revString_append. apply revString_acc.
Qed.

Lemma leadingSpace_prefix p t :
  leadingSpace (p +:+ t) = false -> leadingSpace p = false.
Proof.
  destruct p as [|a [|b [|c r]]]; rewrite ?append_cons;
    change (ε +:+ t) with t; cbn [leadingSpace]; intros H.
  - done.
  - by apply orb_false_elim in H as [-> _].
  - apply orb_false_elim in H as [-> H].
    destruct t; by apply orb_false_elim in H as [-> _].
  - exact H.
Qed.

Lemma TrimSpace_no_leadingSpace s : leadingSpace (TrimSpace s) = false.
Proof.
  unfold TrimSpace.
  destruct (TrimRightSpace_prefix (TrimLeftSpace s)) as [t Ht].
  apply (leadingSpace_prefix _ t). rewrite <- Ht.
  apply TrimLeftSpace_no_leadingSpace.
Qed.

Lemma TrimRightSpace_no_trailingSpace s : trailingSpace (TrimRightSpace s) = false.
Proof.
  unfold trailingSpace, TrimRightSpace. rewrite revString_involutive.
  apply trimLeftSpaceRev_no_leadingSpace.
Qed.

Lemma TrimSpace_no_trailingSpace s : trailingSpace (TrimSpace s) = false.
Proof. apply TrimRightSpace_no_trailingSpace. Qed.

Lemma TrimSpace_fixed s :
  leadingSpace s = false -> trailingSpace s = false -> TrimSpace s = s.
Proof.
  intros Hl Ht. unfold TrimSpace. rewrite (TrimLeftSpace_fixed s Hl).
  unfold TrimRightSpace. rewrite (trimLeftSpaceRev_fixed _ Ht).
  apply revString_involutive.
Qed.

Lemma TrimSpace_idempotent s : TrimSpace (TrimSpace s) = TrimSpace s.
Proof.
  apply TrimSpace_fixed;
    [apply TrimSpace_no_leadingSpace | apply TrimSpace_no_trailingSpace].
Qed.

(** ** The service calls of a handler *)

(** X1: a handler calls the [service] package at most once.  A request that
    fails validation or binding reaches no service and leaves the store
    as it was; any other request makes exactly one call. *)
Theorem at_most_one_service_call
    {S CCConfig Namespace : Type} (svc : Service S CCConfig Namespace)
    (QueryReqJSON : json.Codec QueryReq) (NamespaceJSON : json.Codec Namespace)
    (hd : Handler) (s : server CCConfig) (c : Context) (w : World S Namespace) :
  exists w',
    handle svc QueryReqJSON NamespaceJSON hd s c w = Returned tt w'
    /\ match firstFailure svc QueryReqJSON NamespaceJSON hd s c (store w) with
       | Some InvalidInput | Some (BindFailed _) =>
           calls w' = calls w /\ store w' = store w
       | _ => exists op, calls w' = calls w ++ [op]
       end.
Proof.
  destruct hd; unfold handle, firstFailure, validationFails, bindingError,
    serviceError.
  - rewrite queryNamespace_run, Decode_nil. eexists. split; [reflexivity|].
    rewrite calls_extend. simpl. by rewrite app_nil_r.
  - rewrite modifyNamespace_run, Decode_nil. eexists. split; [reflexivity|].
    rewrite calls_extend. simpl. by rewrite app_nil_r.
  - destruct (String.eqb_spec (nameOf c) ε) as [Hb|Hn].
    + rewrite (delNamespace_blank svc s c w Hb). eexists.
      split; [reflexivity|]. rewrite calls_extend. simpl.
      by rewrite app_nil_r.
    + rewrite (delNamespace_called svc s c w Hn).
      destruct (DelNamespace svc _ _ _) as [[e|] st]; eexists;
        (split; [reflexivity|]); rewrite calls_extend; simpl; by eexists.
  - destruct (String.eqb_spec (nameOf c) ε) as [Hb|Hn].
    + rewrite (sqlFingerprint_blank svc s c w Hb). eexists.
      split; [reflexivity|]. rewrite calls_extend. simpl.
      by rewrite app_nil_r.
    + rewrite (sqlFingerprint_called svc s c w Hn).
      destruct (SQLFingerprint svc _ _ _) as [[[sl er] [e|]] st]; eexists;
        (split; [reflexivity|]); rewrite calls_extend; simpl; by eexists.
  - rewrite proxyConfigFingerprint_run.
    destruct (ProxyConfigFingerprint svc _ _) as [[data [e|]] st]; eexists;
      (split; [reflexivity|]); rewrite calls_extend; simpl; by eexists.
Qed.

(** X2: [delNamespace] and [sqlFingerprint] never call the service with an
    empty name or with a name that has white space at either end: every
    call they make carries a name that trimming leaves as it is. *)
Theorem service_name_is_trimmed
    {S CCConfig Namespace : Type} (svc : Service S CCConfig Namespace)
    (s : server CCConfig) (c : Context) (w : World S Namespace) :
  (exists w' new,
      delNamespace svc s c w = Returned tt w'
      /\ calls w' = calls w ++ new
      /\ Forall (fun op => exists n,
                   op = OpDelNamespace n
                   /\ n = TrimSpace (gin_Param c "name") /\ n <> ε
                   /\ leadingSpace n = false /\ trailingSpace n = false
                   /\ TrimSpace n = n) new)
  /\ (exists w' new,
      sqlFingerprint svc s c w = Returned tt w'
      /\ calls w' = calls w ++ new
      /\ Forall (fun op => exists n,
                   op = OpSQLFingerprint n
                   /\ n = TrimSpace (gin_Param c "name") /\ n <> ε
                   /\ leadingSpace n = false /\ trailingSpace n = false
                   /\ TrimSpace n = n) new).
Proof.
  assert (Htrim : leadingSpace (nameOf c) = false
                  /\ trailingSpace (nameOf c) = false
                  /\ TrimSpace (nameOf c) = nameOf c).
  { unfold nameOf. repeat split.
    - apply TrimSpace_no_leadingSpace.
    - apply TrimSpace_no_trailingSpace.
    - apply TrimSpace_idempotent. }
  destruct (String.eqb_spec (nameOf c) ε) as [Hb|Hn]; split.
  - rewrite (delNamespace_blank svc s c w Hb). eexists. exists [].
    split; [reflexivity|]. rewrite calls_extend. by split.
  - rewrite (sqlFingerprint_blank svc s c w Hb). eexists. exists [].
    split; [reflexivity|]. rewrite calls_extend. by split.
  - rewrite (delNamespace_called svc s c w Hn).
    destruct (DelNamespace svc _ _ _) as [err st].
    eexists. exists [OpDelNamespace (nameOf c)].
    split; [reflexivity|]. rewrite calls_extend. split; [reflexivity|].
    constructor; [|constructor]. by exists (nameOf c).
  - rewrite (sqlFingerprint_called svc s c w Hn).
    destruct (SQLFingerprint svc _ _ _) as [[[sl er] err] st].
    eexists. exists [OpSQLFingerprint (nameOf c)].
    split; [reflexivity|]. rewrite calls_extend. split; [reflexivity|].
    constructor; [|constructor]. by exists (nameOf c).
Qed.

(** X3: [delNamespace] and [sqlFingerprint] read nothing of a request but
    its trimmed name: two requests whose names differ in the white space
    around them only, whatever their bodies and other parameters, are
    handled alike. *)
Theorem only_the_trimmed_name_matters
    {S CCConfig Namespace : Type} (svc : Service S CCConfig Namespace)
    (s : server CCConfig) (c1 c2 : Context) (w : World S Namespace) :
  TrimSpace (gin_Param c1 "name") = TrimSpace (gin_Param c2 "name") ->
  delNamespace svc s c1 w = delNamespace svc s c2 w
  /\ sqlFingerprint svc s c1 w = sqlFingerprint svc s c2 w.
Proof.
  intros Hsame. unfold delNamespace, sqlFingerprint. by rewrite Hsame.
Qed.

Lemma only_the_trimmed_name_matters_witness :
  TrimSpace (gin_Param (request " shop " "ignored") "name")
  = TrimSpace (gin_Param {| Params := [("name", "shop"); ("name", "other")];
                            Body := ε |} "name")
  /\ delNamespace downService server0 (request " shop " "ignored") downWorld
     = delNamespace downService server0
         {| Params := [("name", "shop"); ("name", "other")]; Body := ε |}
         downWorld
  /\ sqlFingerprint downService server0 (request " shop " "ignored") downWorld
     = sqlFingerprint downService server0
         {| Params := [("name", "shop"); ("name", "other")]; Body := ε |}
         downWorld.
Proof.
  split; [reflexivity|].
  exact (only_the_trimmed_name_matters downService server0
           (request " shop " "ignored")
           {| Params := [("name", "shop"); ("name", "other")]; Body := ε |}
           downWorld eq_refl).
Defined.

(** ** The messages of [delNamespace] *)

(** X4: the [ret_message] of [delNamespace] is never empty and tells its
    three outcomes apart: it is [SUCC] exactly on success, it is
    [input name is empty] exactly for a blank name, and after a failed
    service call it begins with [delete namespace faild, ]. *)
Theorem delNamespace_message_tells_outcome
    {S CCConfig Namespace : Type} (svc : Service S CCConfig Namespace)
    (s : server CCConfig) (c : Context) (w : World S Namespace) :
  exists w' h,
    delNamespace svc s c w = Returned tt w'
    /\ written w' = written w ++ [(StatusOK, BodyRetHeader h)]
    /\ RetMessage h <> ε
    /\ (RetMessage h = "SUCC" <-> RetCode h = 0%Z)
    /\ (RetMessage h = "input name is empty"
        <-> TrimSpace (gin_Param c "name") = ε)
    /\ (RetCode h = (-1)%Z -> TrimSpace (gin_Param c "name") <> ε ->
        exists e,
          fst (DelNamespace svc (TrimSpace (gin_Param c "name")) (cfg s)
                 (store w)) = Some e
          /\ RetMessage h = "delete namespace faild, " +:+ Error e).
Proof.
  fold (nameOf c).
  destruct (String.eqb_spec (nameOf c) ε) as [Hb|Hn].
  - rewrite (delNamespace_blank svc s c w Hb). eexists. eexists.
    split; [reflexivity|]. rewrite written_extend.
    split; [reflexivity|]. simpl.
    repeat split; try done.
  - rewrite (delNamespace_called svc s c w Hn).
    destruct (DelNamespace svc _ _ _) as [[e|] st]; eexists; eexists;
      (split; [reflexivity|]); rewrite written_extend;
      (split; [reflexivity|]); simpl.
    + repeat split; try done.
      by intros _ _; exists e.
    + repeat split; try done.
Qed.

(** ** What the service returned is what is answered *)

(** X5: [sqlFingerprint], for a name that is not blank, answers with the
    two maps the service returned, the slow statements under [slow_sqls]
    and the failing ones under [err_sqls]; [proxyConfigFingerprint], for
    every request, answers with the map the service returned.  Both do so
    when the service reports an error as when it does not, and leave the
    store as the service left it. *)
Theorem service_data_is_forwarded
    {S CCConfig Namespace : Type} (svc : Service S CCConfig Namespace)
    (s : server CCConfig) (c : Context) (w : World S Namespace) :
  (TrimSpace (gin_Param c "name") <> ε ->
   exists w' h,
     sqlFingerprint svc s c w = Returned tt w'
     /\ written w'
        = written w
          ++ [ (StatusOK,
                BodySqlFingerprintResp
                  {| sqlFingerprintResp.RetHeader := h;
                     sqlFingerprintResp.ErrSQLs :=
                       snd (fst (fst (SQLFingerprint svc
                              (TrimSpace (gin_Param c "name")) (cfg s)
                              (store w))));
                     sqlFingerprintResp.SlowSQLs :=
                       fst (fst (fst (SQLFingerprint svc
                              (TrimSpace (gin_Param c "name")) (cfg s)
                              (store w)))) |}) ]
     /\ store w'
        = snd (SQLFingerprint svc (TrimSpace (gin_Param c "name")) (cfg s)
                 (store w)))
  /\ (exists w' h,
      proxyConfigFingerprint svc s c w = Returned tt w'
      /\ written w'
         = written w
           ++ [ (StatusOK,
                 BodyProxyConfigFingerprintResp
                   {| proxyConfigFingerprintResp.RetHeader := h;
                      proxyConfigFingerprintResp.Data :=
                        fst (fst (ProxyConfigFingerprint svc (cfg s)
                                    (store w))) |}) ]
      /\ store w' = snd (ProxyConfigFingerprint svc (cfg s) (store w))).
Proof.
  fold (nameOf c). split.
  - intros Hn. rewrite (sqlFingerprint_called svc s c w Hn).
    destruct (SQLFingerprint svc _ _ _) as [[[sl er] err] st].
    eexists. eexists. split; [reflexivity|]. rewrite written_extend.
    by split.
  - rewrite proxyConfigFingerprint_run.
    destruct (ProxyConfigFingerprint svc _ _) as [[data err] st].
    eexists. eexists. split; [reflexivity|]. rewrite written_extend.
    by split.
Qed.

(** The two requests as their routes give them: the name [shop] for
    [sqlFingerprint], no parameter for [proxyConfigFingerprint]; the
    service fails and returns maps with its error. *)
Lemma service_data_is_forwarded_witness :
  TrimSpace (gin_Param (request "shop" ε) "name") <> ε
  /\ (exists w' h,
      sqlFingerprint staleService server0 (request "shop" ε) downWorld
      = Returned tt w'
      /\ written w'
         = [ (StatusOK,
              BodySqlFingerprintResp
                {| sqlFingerprintResp.RetHeader := h;
                   sqlFingerprintResp.ErrSQLs := {[ "insert ?" := "insert 1" ]};
                   sqlFingerprintResp.SlowSQLs :=
                     {[ "select ?" := "select 1" ]} |}) ]
      /\ store w' = tt)
  /\ (exists w' h,
      proxyConfigFingerprint staleService server0
        {| Params := []; Body := ε |} downWorld
      = Returned tt w'
      /\ written w'
         = [ (StatusOK,
              BodyProxyConfigFingerprintResp
                {| proxyConfigFingerprintResp.RetHeader := h;
                   proxyConfigFingerprintResp.Data :=
                     {[ nodeA := "abc123" ]} |}) ]
      /\ store w' = tt).
Proof.
  split; [discriminate|]. split.
  - exact (proj1 (service_data_is_forwarded staleService server0
                    (request "shop" ε) downWorld) ltac:(discriminate)).
  - exact (proj2 (service_data_is_forwarded staleService server0
                    {| Params := []; Body := ε |} downWorld)).
Defined.

(** ** Routing *)

Lemma isSlash_eq a : isSlash a = true -> a = byte 47.
Proof.
  unfold isSlash, isByte. intros H%Nat.eqb_eq.
  rewrite <- (ascii_nat_embedding a). by rewrite H.
Qed.

Lemma segments_nonempty s : segments s <> [].
Proof.
  destruct s as [|a r]; simpl; [done|].
  destruct (isSlash a); [done|]. by destruct (segments r).
Qed.

Lemma joinSegments_cons a seg rest :
  joinSegments (String a seg :: rest) = String a (joinSegments (seg :: rest)).
Proof. by destruct rest. Qed.

(** A path is its segments joined by slashes. *)
Lemma joinSegments_segments s : joinSegments (segments s) = s.
Proof.
  induction s as [|a r IH]; [done|]. simpl.
  destruct (isSlash a) eqn:Ha.
  - apply isSlash_eq in Ha as ->.
    pose proof (segments_nonempty r) as Hne.
    destruct (segments r) as [|seg rest] eqn:Hr; [done|].
    simpl in *. by rewrite IH.
  - pose proof (segments_nonempty r) as Hne.
    destruct (segments r) as [|seg rest] eqn:Hr; [done|].
    by rewrite joinSegments_cons, IH.
Qed.

Lemma segments_noSlash s : Forall (fun seg => noSlash seg = true) (segments s).
Proof.
  induction s as [|a r IH]; simpl; [by constructor|].
  destruct (isSlash a) eqn:Ha; [by constructor|].
  destruct (segments r) as [|seg rest].
  - constructor; [|done]. simpl. by rewrite Ha.
  - inversion IH as [|? ? Hseg Hrest]; subst.
    constructor; [|done]. simpl. by rewrite Ha, Hseg.
Qed.

Lemma segments_of_segment seg : noSlash seg = true -> segments seg = [seg].
Proof.
  induction seg as [|a r IH]; simpl; [done|].
  intros [Ha Hr]%andb_prop. apply negb_true_iff in Ha. rewrite Ha.
  by rewrite (IH Hr).
Qed.

Lemma segments_append seg t :
  noSlash seg = true ->
  segments (seg +:+ String (byte 47) t) = seg :: segments t.
Proof.
  induction seg as [|a r IH]; [done|]. rewrite append_cons. simpl.
  intros [Ha Hr]%andb_prop. apply negb_true_iff in Ha. rewrite Ha.
  by rewrite (IH Hr).
Qed.

(** Slash-free segments joined into a path are the segments of the path. *)
Lemma segments_joinSegments segs :
  segs <> [] -> Forall (fun seg => noSlash seg = true) segs ->
  segments (joinSegments segs) = segs.
Proof.
  induction segs as [|seg rest IH]; [done|]. intros _ Hall.
  inversion Hall as [|? ? Hseg Hrest]; subst.
  destruct rest as [|seg' rest].
  - by apply segments_of_segment.
  - change (joinSegments (seg :: seg' :: rest))
      with (seg +:+ String (byte 47) (joinSegments (seg' :: rest))).
    rewrite (segments_append _ _ Hseg). by rewrite IH.
Qed.

Lemma matchSegments_static pattern :
  Forall (fun p => paramKey p = None) pattern ->
  forall path ps,
    matchSegments pattern path = Some ps <-> path = pattern /\ ps = [].
Proof.
  induction 1 as [|p pattern Hp _ IH]; intros path ps.
  - destruct path; simpl; (split; [intros ? | intros [? ?]]); by simplify_eq.
  - destruct path as [|x path]; simpl.
    { split; [intros ? | intros [? ?]]; by simplify_eq. }
    rewrite Hp. destruct (String.eqb_spec p x) as [->|Hne].
    + rewrite IH. split; intros [? ?]; by simplify_eq.
    + split; [intros ? | intros [? ?]]; by simplify_eq.
Qed.

Lemma matchSegments_param pattern last key :
  Forall (fun p => paramKey p = None) pattern ->
  paramKey last = Some key ->
  forall path ps,
    matchSegments (pattern ++ [last]) path = Some ps
    <-> exists x, path = pattern ++ [x] /\ x <> ε /\ ps = [(key, x)].
Proof.
  intros Hstatic Hlast.
  induction Hstatic as [|p pattern Hp _ IH]; intros path ps.
  - destruct path as [|x path]; simpl.
    { split; [intros ? | intros (x & ? & ? & ?)]; by simplify_eq. }
    rewrite Hlast. destruct (String.eqb_spec x ε) as [->|Hx].
    { split; [intros ? | intros (y & ? & ? & ?)]; by simplify_eq. }
    destruct path as [|y path]; simpl.
    + split; [intros ?; simplify_eq; by exists x
             | intros (y & ? & ? & ?); by simplify_eq].
    + split; [intros ? | intros (z & ? & ? & ?)]; by simplify_eq.
  - destruct path as [|x path]; simpl.
    { split; [intros ? | intros (x & ? & ? & ?)]; by simplify_eq. }
    rewrite Hp. destruct (String.eqb_spec p x) as [->|Hne].
    + rewrite IH. split; intros (y & ? & ? & ?); simplify_eq; by exists y.
    + split; [intros ? | intros (y & ? & ? & ?)]; by simplify_eq.
Qed.

Lemma firstMatch_Some method path routes found :
  firstMatch method path routes = Some found ->
  exists route, route ∈ routes /\ matchRoute method path route = Some found.
Proof.
  induction routes as [|route routes IH]; simpl; [done|].
  destruct (matchRoute method path route) as [x|] eqn:Hm.
  - intros [= <-]. exists route. split; [by left | done].
  - intros (r & Hin & Hr)%IH. exists r. split; [by right | done].
Qed.

Lemma matchRoute_Some method path m rel hd hd' ps :
  matchRoute method path (m, rel, hd) = Some (hd', ps)
  <-> hd' = hd /\ method = methodName m
      /\ matchSegments (segments (basePath +:+ rel)) (segments path) = Some ps.
Proof.
  unfold matchRoute. destruct (String.eqb_spec method (methodName m)) as [->|Hm].
  - destruct (matchSegments _ _) as [ps'|];
      (split; [intros ? | intros (? & ? & ?)]); by simplify_eq.
  - split; [intros ? | intros (? & ? & ?)]; by simplify_eq.
Qed.

Lemma pattern_namespace :
  segments (basePath +:+ "/namespace") = [ε; "api"; "cc"; "namespace"].
Proof. reflexivity. Qed.

Lemma pattern_modify :
  segments (basePath +:+ "/namespace/modify")
  = [ε; "api"; "cc"; "namespace"; "modify"].
Proof. reflexivity. Qed.

Lemma pattern_delete :
  segments (basePath +:+ "/namespace/delete/:name")
  = [ε; "api"; "cc"; "namespace"; "delete"] ++ [":name"].
Proof. reflexivity. Qed.

Lemma pattern_sqlfingerprint :
  segments (basePath +:+ "/namespace/sqlfingerprint/:name")
  = [ε; "api"; "cc"; "namespace"; "sqlfingerprint"] ++ [":name"].
Proof. reflexivity. Qed.

Lemma pattern_proxy :
  segments (basePath +:+ "/proxy/config/fingerprint")
  = [ε; "api"; "cc"; "proxy"; "config"; "fingerprint"].
Proof. reflexivity. Qed.

(** A path with the given segments. *)
Lemma path_of_segments path segs :
  segments path = segs ->
  path = joinSegments segs
  /\ Forall (fun seg => noSlash seg = true) segs.
Proof.
  intros <-. split; [by rewrite joinSegments_segments | apply segments_noSlash].
Qed.

Ltac static_pattern := repeat constructor.

(** X6: each handler is run for one method and one shape of path, and for no
    other request: [queryNamespace], [modifyNamespace] and
    [proxyConfigFingerprint] for their exact path, without parameters;
    [delNamespace] and [sqlFingerprint] for their prefix followed by one
    non-empty segment without a slash, which is the parameter [name]. *)
Theorem route_of_each_handler
    (method path : string) (hd : Handler) (ps : list (string * string)) :
  findRoute method path = Some (hd, ps)
  <-> match hd with
      | HQueryNamespace =>
          method = "GET" /\ path = "/api/cc/namespace" /\ ps = []
      | HModifyNamespace =>
          method = "PUT" /\ path = "/api/cc/namespace/modify" /\ ps = []
      | HDelNamespace =>
          method = "PUT"
          /\ exists name,
               path = "/api/cc/namespace/delete/" +:+ name
               /\ name <> ε /\ noSlash name = true /\ ps = [("name", name)]
      | HSqlFingerprint =>
          method = "GET"
          /\ exists name,
               path = "/api/cc/namespace/sqlfingerprint/" +:+ name
               /\ name <> ε /\ noSlash name = true /\ ps = [("name", name)]
      | HProxyConfigFingerprint =>
          method = "GET" /\ path = "/api/cc/proxy/config/fingerprint"
          /\ ps = []
      end.
Proof.
  split.
  - intros (route & Hin & Hm)%firstMatch_Some. unfold registerURL in Hin.
    repeat (apply elem_of_cons in Hin as [->|Hin]);
      [| | | | | by apply elem_of_nil in Hin];
      apply matchRoute_Some in Hm as (-> & -> & Hseg).
    + rewrite pattern_namespace in Hseg.
      apply matchSegments_static in Hseg as [Hsegs ->]; [|static_pattern].
      apply path_of_segments in Hsegs as [-> _]. done.
    + rewrite pattern_modify in Hseg.
      apply matchSegments_static in Hseg as [Hsegs ->]; [|static_pattern].
      apply path_of_segments in Hsegs as [-> _]. done.
    + rewrite pattern_delete in Hseg.
      apply (matchSegments_param _ _ "name") in Hseg
        as (name & Hsegs & Hne & ->); [|static_pattern|done].
      apply path_of_segments in Hsegs as [-> Hall].
      split; [done|]. exists name. repeat split; try done.
      do 5 (apply Forall_cons in Hall as [_ Hall]).
      by apply Forall_cons in Hall as [? _].
    + rewrite pattern_sqlfingerprint in Hseg.
      apply (matchSegments_param _ _ "name") in Hseg
        as (name & Hsegs & Hne & ->); [|static_pattern|done].
      apply path_of_segments in Hsegs as [-> Hall].
      split; [done|]. exists name. repeat split; try done.
      do 5 (apply Forall_cons in Hall as [_ Hall]).
      by apply Forall_cons in Hall as [? _].
    + rewrite pattern_proxy in Hseg.
      apply matchSegments_static in Hseg as [Hsegs ->]; [|static_pattern].
      apply path_of_segments in Hsegs as [-> _]. done.
  - destruct hd.
    + by intros (-> & -> & ->).
    + by intros (-> & -> & ->).
    + intros (-> & name & -> & Hne & Hslash & ->).
      assert (Hsegs : segments ("/api/cc/namespace/delete/" +:+ name)
                      = [ε; "api"; "cc"; "namespace"; "delete"; name]).
      { apply (segments_joinSegments
                 [ε; "api"; "cc"; "namespace"; "delete"; name]); [done|].
        by repeat constructor. }
      unfold findRoute, registerURL, firstMatch, matchRoute.
      rewrite pattern_namespace, pattern_modify, pattern_delete, Hsegs.
      destruct name; [done|]. reflexivity.
    + intros (-> & name & -> & Hne & Hslash & ->).
      assert (Hsegs : segments ("/api/cc/namespace/sqlfingerprint/" +:+ name)
                      = [ε; "api"; "cc"; "namespace"; "sqlfingerprint"; name]).
      { apply (segments_joinSegments
                 [ε; "api"; "cc"; "namespace"; "sqlfingerprint"; name]);
          [done|].
        by repeat constructor. }
      unfold findRoute, registerURL, firstMatch, matchRoute.
      rewrite pattern_namespace, pattern_modify, pattern_delete,
        pattern_sqlfingerprint, Hsegs.
      destruct name; [done|]. reflexivity.
    + by intros (-> & -> & ->).
Qed.
